(** * MoonTV download route: a model of [src/app/api/download/route.ts]

    The route handler [POST] and its helper [convertHLSToMP4] are embedded
    as Rocq functions.  JavaScript strings are sequences of UTF-16 code
    units; the regular expression [/[^\w\s-]/g] of the handler has no [u]
    flag and therefore works code unit by code unit.  The operating system
    (the ffmpeg child process, the scratch directory, the clock) is an
    explicit environment record, and the handler threads a world made of
    the files on disk and the log of system calls it issued.  The second
    copy of the handler in the repository differs in layout and in its
    console output only; console output is not modelled. *)

From Stdlib Require Import ZArith List Bool Lia String Ascii.
From Stdlib Require Import DecimalString.
Import ListNotations.
Local Open Scope Z_scope.

Set Implicit Arguments.

(* ================================================================== *)
(** ** JavaScript strings *)

Module JS.

(** A string is the list of its UTF-16 code units. *)
Definition jsstring := list Z.

Definition code (a : ascii) : Z := Z.of_N (N_of_ascii a).

(** ASCII literals of the source, written as Rocq strings. *)
Fixpoint lit (s : string) : jsstring :=
  match s with
  | EmptyString => []
  | String a r => code a :: lit r
  end.

Definition eqb_str (a b : jsstring) : bool :=
  if list_eq_dec Z.eq_dec a b then true else false.

(** [s.startsWith(p)], the position test behind [String.prototype.includes]. *)
Fixpoint starts_with (p s : jsstring) : bool :=
  match p, s with
  | [], _ => true
  | _ :: _, [] => false
  | a :: p', b :: s' => (a =? b) && starts_with p' s'
  end.

(** [s.includes(needle)]: some position of [s] starts an occurrence. *)
Fixpoint includes (s needle : jsstring) : bool :=
  starts_with needle s ||
  match s with
  | [] => false
  | _ :: s' => includes s' needle
  end.

(** Template-literal rendering of a number ([`${code}`]). *)
Definition show_int (z : Z) : jsstring :=
  lit (NilZero.string_of_int (Z.to_int z)).

(** *** Character classes of a regular expression without the [u] flag *)

(** [\w] is [[A-Za-z0-9_]]. *)
Definition is_word (c : Z) : bool :=
  ((65 <=? c) && (c <=? 90)) || ((97 <=? c) && (c <=? 122)) ||
  ((48 <=? c) && (c <=? 57)) || (c =? 95).

(** [\s] is ECMAScript WhiteSpace and LineTerminator:
    TAB LF VT FF CR SP NBSP, U+1680, U+2000..U+200A, U+2028, U+2029,
    U+202F, U+205F, U+3000 and U+FEFF. *)
Definition is_space (c : Z) : bool :=
  ((9 <=? c) && (c <=? 13)) || (c =? 32) || (c =? 160) || (c =? 5760) ||
  ((8192 <=? c) && (c <=? 8202)) || (c =? 8232) || (c =? 8233) ||
  (c =? 8239) || (c =? 8287) || (c =? 12288) || (c =? 65279).

(** The class [[\w\s-]]; the expression [/[^\w\s-]/g] matches its complement. *)
Definition kept (c : Z) : bool := is_word c || is_space c || (c =? 45).

(** [s.replace(/[^\w\s-]/g, '')] deletes every matching code unit. *)
Definition strip (s : jsstring) : jsstring := filter kept s.

End JS.
Import JS.

(* ================================================================== *)
(** ** File naming and stream classification (lines 23 and 24 of [POST]) *)

(** The default base name ['视频']. *)
Definition defaultName : jsstring := [35270; 39057].

(** [fileName || '视频']: an absent or empty hint is falsy. *)
Definition orDefault (fileName : option jsstring) : jsstring :=
  match fileName with
  | None => defaultName
  | Some [] => defaultName
  | Some s => s
  end.

(** [(fileName || '视频').replace(/[^\w\s-]/g, '') + '.mp4'] *)
Definition deriveFileName (fileName : option jsstring) : jsstring :=
  strip (orDefault fileName) ++ lit ".mp4".

(** [videoUrl.includes('.m3u8')] *)
Definition isSegmentedStream (videoUrl : jsstring) : bool :=
  includes videoUrl (lit ".m3u8").

(* ================================================================== *)
(** ** [path.join] (POSIX flavour of Node's [path] module) *)

Module Path.

Definition slash : Z := 47.

(** The segments between the separators of a path. *)
Fixpoint split_slash (s : jsstring) : list jsstring :=
  match s with
  | [] => [[]]
  | c :: r =>
      if c =? slash then [] :: split_slash r
      else match split_slash r with
           | h :: t => (c :: h) :: t
           | [] => [[c]]
           end
  end.

(** One round of [normalizeString]: the result so far is kept as the
    reversed list of its segments. *)
Definition step (allowAboveRoot : bool) (acc : list jsstring) (seg : jsstring)
  : list jsstring :=
  if eqb_str seg [] || eqb_str seg (lit ".") then acc
  else if eqb_str seg (lit "..") then
    match acc with
    | last :: rest =>
        if eqb_str last (lit "..")
        then (if allowAboveRoot then seg :: acc else acc)
        else rest
    | [] => if allowAboveRoot then [seg] else []
    end
  else seg :: acc.

Fixpoint intercalate (segs : list jsstring) : jsstring :=
  match segs with
  | [] => []
  | [s] => s
  | s :: r => s ++ slash :: intercalate r
  end.

Definition normalizeString (path : jsstring) (allowAboveRoot : bool) : jsstring :=
  intercalate (rev (fold_left (step allowAboveRoot) (split_slash path) [])).

Definition normalize (path : jsstring) : jsstring :=
  match path with
  | [] => lit "."
  | first :: _ =>
      let isAbsolute := first =? slash in
      let trailingSeparator := last path 0 =? slash in
      match normalizeString path (negb isAbsolute) with
      | [] => if isAbsolute then lit "/"
              else if trailingSeparator then lit "./" else lit "."
      | body =>
          (if isAbsolute then [slash] else []) ++ body ++
          (if trailingSeparator then [slash] else [])
      end
  end.

(** [join(a, b)]: the non-empty arguments glued with a separator, normalized. *)
Definition join (a b : jsstring) : jsstring :=
  match a, b with
  | [], [] => lit "."
  | [], _ => normalize b
  | _, [] => normalize a
  | _, _ => normalize (a ++ slash :: b)
  end.

End Path.

(* ================================================================== *)
(** ** The ffmpeg child process raced against the timer
       ([convertHLSToMP4], lines 124 to 151) *)

Module Runner.

(** What the child process emits. *)
Inductive pevent : Type :=
| StderrData (chunk : jsstring)      (* ffmpeg.stderr.on('data') *)
| Close (code : option Z)            (* ffmpeg.on('close'); null code after a signal *)
| ProcError (message : jsstring).    (* ffmpeg.on('error') *)

(** What reaches the event loop: a process event or the [setTimeout] callback. *)
Inductive event : Type :=
| Proc (e : pevent)
| TimerFired.

(** The single-resolution slot of [new Promise((resolve, reject) => ...)]. *)
Inductive promise : Type :=
| Pending
| Fulfilled (value : jsstring)
| Rejected (message : jsstring).

Record state : Type := mkState {
  slot : promise;
  stderr : jsstring;            (* [let stderr = ''] *)
  kills : list jsstring;        (* signals sent with [ffmpeg.kill] *)
  resumptions : nat             (* times the awaiting caller was resumed *)
}.

Definition init : state := mkState Pending [] [] 0.

(** [resolve] and [reject] of a promise act on a pending slot only. *)
Definition resolve (v : jsstring) (st : state) : state :=
  match slot st with
  | Pending => mkState (Fulfilled v) (stderr st) (kills st) (S (resumptions st))
  | _ => st
  end.

Definition reject (m : jsstring) (st : state) : state :=
  match slot st with
  | Pending => mkState (Rejected m) (stderr st) (kills st) (S (resumptions st))
  | _ => st
  end.

(** The delay passed to [setTimeout], in milliseconds. *)
Definition timeout_ms : Z := 10 * 60 * 1000.

(** ['FFmpeg转换失败，退出码: '] *)
Definition exitPrefix : jsstring :=
  lit "FFmpeg" ++ [36716; 25442; 22833; 36133; 65292; 36864; 20986; 30721] ++ lit ": ".
(** ['FFmpeg进程错误: '] *)
Definition errorPrefix : jsstring :=
  lit "FFmpeg" ++ [36827; 31243; 38169; 35823] ++ lit ": ".
(** ['FFmpeg转换超时'] *)
Definition timeoutMessage : jsstring :=
  lit "FFmpeg" ++ [36716; 25442; 36229; 26102].

Definition show_code (code : option Z) : jsstring :=
  match code with
  | Some z => show_int z
  | None => lit "null"
  end.

Definition exitMessage (code : option Z) (err : jsstring) : jsstring :=
  exitPrefix ++ show_code code ++ [10] ++ err.

(** The four callbacks registered by [convertHLSToMP4]. *)
Definition handle (outputPath : jsstring) (st : state) (e : event) : state :=
  match e with
  | Proc (StderrData d) =>
      mkState (slot st) (stderr st ++ d) (kills st) (resumptions st)
  | Proc (Close code) =>
      match code with
      | Some 0 => resolve outputPath st
      | _ => reject (exitMessage code (stderr st)) st
      end
  | Proc (ProcError m) => reject (errorPrefix ++ m) st
  | TimerFired =>
      reject timeoutMessage
        (mkState (slot st) (stderr st) (kills st ++ [lit "SIGKILL"]) (resumptions st))
  end.

(** The process is described by its events, each with the delay in
    milliseconds since the previous one.  The timer callback runs once the
    clock reaches [timeout_ms]; events of the process that are due earlier
    are delivered first, the others afterwards. *)
Fixpoint schedule_from (elapsed : Z) (p : list (N * pevent)) : list event :=
  match p with
  | [] => [TimerFired]
  | (d, e) :: r =>
      let t := elapsed + Z.of_N d in
      if t <? timeout_ms then Proc e :: schedule_from t r
      else TimerFired :: map (fun x => Proc (snd x)) p
  end.

Definition schedule (p : list (N * pevent)) : list event := schedule_from 0 p.

(** [await]: the caller is resumed by the first event that settles the
    promise; [None] when no event ever does.  The events left over are
    returned: they are handled after the caller went on. *)
Fixpoint await (outputPath : jsstring) (evs : list event) (st : state)
  : option (state * list event) :=
  match evs with
  | [] => None
  | e :: r =>
      let st' := handle outputPath st e in
      match slot st' with
      | Pending => await outputPath r st'
      | _ => Some (st', r)
      end
  end.

(** All events handled, the late ones included. *)
Definition drain (outputPath : jsstring) (evs : list event) (st : state) : state :=
  fold_left (handle outputPath) evs st.

End Runner.

(* ================================================================== *)
(** ** The world of one request: files on disk and system calls issued *)

Module Sys.

Import Runner.

Definition bytes := list Byte.byte.

Inductive action : Type :=
| Spawn (command : jsstring) (args : list jsstring)   (* child_process.spawn *)
| Kill (signal : jsstring)                            (* ffmpeg.kill *)
| ReadFile (path : jsstring)                          (* fs.readFile *)
| Unlink (path : jsstring).                           (* fs.unlink *)

Record World : Type := mkWorld {
  files : list (jsstring * bytes);
  calls : list action
}.

(** What the handler cannot decide: the scratch directory, the random
    token, how the ffmpeg process behaves in time, what it leaves at its
    output path, and whether the file system refuses a read or a removal. *)
Record Env : Type := mkEnv {
  tmpdir : jsstring;                  (* os.tmpdir() *)
  uuid : jsstring;                    (* crypto.randomUUID() *)
  proc : list (N * pevent);
  output : option bytes;
  read_fault : option jsstring;
  unlink_fault : option jsstring
}.

Fixpoint lookup (p : jsstring) (fs : list (jsstring * bytes)) : option bytes :=
  match fs with
  | [] => None
  | (q, b) :: r => if eqb_str p q then Some b else lookup p r
  end.

Definition remove (p : jsstring) (fs : list (jsstring * bytes))
  : list (jsstring * bytes) :=
  filter (fun e => negb (eqb_str p (fst e))) fs.

Definition write (p : jsstring) (b : bytes) (fs : list (jsstring * bytes))
  : list (jsstring * bytes) :=
  (p, b) :: remove p fs.

Definition exists_file (p : jsstring) (w : World) : bool :=
  match lookup p (files w) with Some _ => true | None => false end.

(** *** Asynchronous computations that may throw

    [None] stands for a computation that never resumes its caller;
    [inr m] for a thrown [Error] whose message is [m]. *)
Definition M (A : Type) : Type := World -> option ((A + jsstring) * World).

Definition ret {A} (a : A) : M A := fun w => Some (inl a, w).

Definition throw {A} (m : jsstring) : M A := fun w => Some (inr m, w).

Definition bind {A B} (c : M A) (k : A -> M B) : M B :=
  fun w =>
    match c w with
    | None => None
    | Some (inl a, w') => k a w'
    | Some (inr m, w') => Some (inr m, w')
    end.

(** [try { body } catch (e) { handler }] *)
Definition try_catch {A} (body : M A) (handler : jsstring -> M A) : M A :=
  fun w =>
    match body w with
    | None => None
    | Some (inl a, w') => Some (inl a, w')
    | Some (inr m, w') => handler m w'
    end.

(** [promise.catch(() => {})] *)
Definition catch_ignore (c : M unit) : M unit := try_catch c (fun _ => ret tt).

Definition call (a : action) : M unit :=
  fun w => Some (inl tt, mkWorld (files w) (calls w ++ [a])).

Notation "x <- c ;; k" := (bind c (fun x => k))
  (at level 61, c at next level, right associativity).
Notation "c ;;; k" := (bind c (fun _ => k))
  (at level 61, right associativity).

(** [fs.readFile(path)] *)
Definition readFile (env : Env) (path : jsstring) : M bytes :=
  call (ReadFile path) ;;;
  fun w =>
    match read_fault env with
    | Some m => throw m w
    | None =>
        match lookup path (files w) with
        | Some b => ret b w
        | None => throw (lit "ENOENT: no such file or directory, open " ++ path) w
        end
    end.

(** [fs.unlink(path)] *)
Definition unlink (env : Env) (path : jsstring) : M unit :=
  call (Unlink path) ;;;
  fun w =>
    match unlink_fault env with
    | Some m => throw m w
    | None =>
        match lookup path (files w) with
        | Some _ => ret tt (mkWorld (remove path (files w)) (calls w))
        | None => throw (lit "ENOENT: no such file or directory, unlink " ++ path) w
        end
    end.

(** The ffmpeg argument vector of lines 113 to 120. *)
Definition ffmpegArgs (hlsUrl outputPath : jsstring) : list jsstring :=
  [ lit "-i"; hlsUrl;
    lit "-c"; lit "copy";
    lit "-bsf:a"; lit "aac_adtstoasc";
    lit "-movflags"; lit "faststart";
    lit "-y";
    outputPath ].

(** The temporary path of line 110. *)
Definition tempPath (env : Env) (fileName : jsstring) : jsstring :=
  Path.join (tmpdir env) (uuid env ++ lit "_" ++ fileName).

(** What the run of ffmpeg did to the disk. *)
Definition ffmpeg_effect (env : Env) (outputPath : jsstring)
  (fs : list (jsstring * bytes)) : list (jsstring * bytes) :=
  match output env with
  | Some b => write outputPath b fs
  | None => fs
  end.

(** [convertHLSToMP4(hlsUrl, fileName)]: spawn, then wait for the promise. *)
Definition convertHLSToMP4 (env : Env) (hlsUrl fileName : jsstring) : M jsstring :=
  let outputPath := tempPath env fileName in
  let args := ffmpegArgs hlsUrl outputPath in
  call (Spawn (lit "ffmpeg") args) ;;;
  fun w =>
    match await outputPath (schedule (proc env)) init with
    | None => None
    | Some (st, _) =>
        let w' := mkWorld (ffmpeg_effect env outputPath (files w))
                          (calls w ++ map Kill (kills st)) in
        match slot st with
        | Fulfilled p => ret p w'
        | Rejected m => throw m w'
        | Pending => None
        end
    end.

End Sys.

(* ================================================================== *)
(** ** The route handler [POST] *)

Module Route.

Import Runner Sys.

(** One entry of the [methods] array. *)
Record Method : Type := mkMethod {
  name : jsstring;
  description : jsstring;
  command : option jsstring;
  install : option jsstring;
  note : option jsstring
}.

Inductive Response : Type :=
| BadRequest (error : jsstring)                                   (* status 400 *)
| DirectDownload (url fileName : jsstring)   (* success: true, directDownload: true *)
| FileStream (body : bytes) (headers : list (jsstring * jsstring))
| ConversionFailed (error suggestion : jsstring) (methods : list Method)
                   (videoUrl fileName : jsstring)                 (* success: false *)
| InternalError (error details : jsstring).                       (* status 500 *)

Definition status (r : Response) : Z :=
  match r with
  | BadRequest _ => 400
  | InternalError _ _ => 500
  | _ => 200
  end.

(** The body of the request: [request.json()] throws on malformed input,
    otherwise the two fields are present as strings or absent. *)
Inductive Request : Type :=
| BadJson (message : jsstring)
| Json (videoUrl fileName : option jsstring).

Definition json (request : Request) : M (option jsstring * option jsstring) :=
  match request with
  | BadJson m => throw m
  | Json v f => ret (v, f)
  end.

Definition dq : jsstring := [34].

(** ['缺少视频URL参数'] *)
Definition missingUrl : jsstring :=
  [32570; 23569; 35270; 39057] ++ lit "URL" ++ [21442; 25968].
(** ['HLS视频流转换失败'] *)
Definition conversionFailed : jsstring :=
  lit "HLS" ++ [35270; 39057; 27969; 36716; 25442; 22833; 36133].
(** ['建议使用以下方法下载HLS视频流'] *)
Definition suggestionText : jsstring :=
  [24314; 35758; 20351; 29992; 20197; 19979; 26041; 27861; 19979; 36733] ++
  lit "HLS" ++ [35270; 39057; 27969].
(** ['服务器内部错误'] *)
Definition serverError : jsstring :=
  [26381; 21153; 22120; 20869; 37096; 38169; 35823].

(** [`yt-dlp "${videoUrl}" -o "${safeFileName}"`] *)
Definition ytdlpCommand (videoUrl safeFileName : jsstring) : jsstring :=
  lit "yt-dlp " ++ dq ++ videoUrl ++ dq ++ lit " -o " ++ dq ++ safeFileName ++ dq.

(** [`ffmpeg -i "${videoUrl}" -c copy "${safeFileName}"`] *)
Definition ffmpegCommand (videoUrl safeFileName : jsstring) : jsstring :=
  lit "ffmpeg -i " ++ dq ++ videoUrl ++ dq ++ lit " -c copy " ++ dq ++ safeFileName ++ dq.

(** The [methods] array of lines 62 to 85. *)
Definition fallbackAdvisory (videoUrl safeFileName : jsstring) : list Method :=
  [ mkMethod (lit "yt-dlp")
      ([24378; 22823; 30340; 35270; 39057; 19979; 36733; 24037; 20855; 65292;
        25903; 25345; 22810; 31181; 26684; 24335])
      (Some (ytdlpCommand videoUrl safeFileName))
      (Some (lit "pip install yt-dlp " ++ [25110; 20174] ++
             lit " https://github.com/yt-dlp/yt-dlp/releases " ++ [19979; 36733]))
      None;
    mkMethod (lit "FFmpeg")
      [19987; 19994; 30340; 38899; 35270; 39057; 22788; 29702; 24037; 20855]
      (Some (ffmpegCommand videoUrl safeFileName))
      (Some ([20174] ++ lit " https://ffmpeg.org/download.html " ++
             [19979; 36733; 25110; 20351; 29992; 21253; 31649; 29702; 22120;
              23433; 35013]))
      None;
    mkMethod (lit "IDM (Internet Download Manager)")
      (lit "Windows" ++ [24179; 21488; 30340; 19979; 36733; 31649; 29702; 22120])
      None None
      (Some [30452; 25509; 31896; 36148; 38142; 25509; 21363; 21487; 19979; 36733]);
    mkMethod [36805; 38647]
      [22269; 20869; 24120; 29992; 30340; 19979; 36733; 24037; 20855]
      None None
      (Some ([25903; 25345] ++ lit "HLS" ++ [27969; 19979; 36733])) ].

(** [`attachment; filename="${safeFileName}"`] *)
Definition contentDisposition (safeFileName : jsstring) : jsstring :=
  lit "attachment; filename=" ++ dq ++ safeFileName ++ dq.

(** The [headers] object of lines 48 to 52. *)
Definition streamHeaders (safeFileName : jsstring) (fileBuffer : bytes)
  : list (jsstring * jsstring) :=
  [ (lit "Content-Type", lit "video/mp4");
    (lit "Content-Disposition", contentDisposition safeFileName);
    (lit "Content-Length", show_int (Z.of_nat (List.length fileBuffer))) ].

(** A header value that [new Headers] takes: a byte string without NUL, LF
    and CR.  (Leading and trailing white space would be trimmed first; the
    values built by the handler start and end with a visible character.) *)
Definition header_value_ok (v : jsstring) : bool :=
  forallb (fun c => negb (c =? 0) && negb (c =? 10) && negb (c =? 13) && (c <=? 255)) v.

Definition headers_ok (headers : list (jsstring * jsstring)) : bool :=
  forallb (fun h => header_value_ok (snd h)) headers.

(** [new NextResponse(body, { headers })]: the constructor throws a
    [TypeError] when a header value is refused (the handler does not look
    at its message). *)
Definition newResponse (body : bytes) (headers : list (jsstring * jsstring))
  : M Response :=
  if headers_ok headers then ret (FileStream body headers)
  else throw (lit "TypeError: invalid header value").

Definition POST (env : Env) (request : Request) : M Response :=
  try_catch
    (body <- json request ;;
     let (videoUrl, fileName) := body in
     match videoUrl with
     | None | Some [] => ret (BadRequest missingUrl)
     | Some videoUrl =>
         let safeFileName := deriveFileName fileName in
         let isHLS := isSegmentedStream videoUrl in
         if negb isHLS then ret (DirectDownload videoUrl safeFileName)
         else
           try_catch
             (outputPath <- convertHLSToMP4 env videoUrl safeFileName ;;
              fileBuffer <- readFile env outputPath ;;
              catch_ignore (unlink env outputPath) ;;;
              newResponse fileBuffer (streamHeaders safeFileName fileBuffer))
             (fun ffmpegError =>
                ret (ConversionFailed conversionFailed suggestionText
                       (fallbackAdvisory videoUrl safeFileName)
                       videoUrl safeFileName))
     end)
    (fun error => ret (InternalError serverError error)).

(** How often the handler asked for the removal of [p]. *)
Definition unlink_attempts (p : jsstring) (w : World) : nat :=
  List.length (filter (fun a => match a with Unlink q => eqb_str p q | _ => false end)
                 (calls w)).

End Route.

(* ================================================================== *)
(** ** Vocabulary of the properties *)

(** Classes of characters, and the shape of an HTTP quoted string. *)
Module Classes.

(** C0 control characters and DEL. *)
Definition is_control (c : Z) : bool := ((0 <=? c) && (c <? 32)) || (c =? 127).

(** Characters with a meaning to a shell, white space apart:
    double quote, quote, backslash, backquote and [|&;()<>$*?[]{}!#~=%^]. *)
Definition shell_meta (c : Z) : bool :=
  existsb (Z.eqb c) ([34; 39; 92; 96] ++ lit "|&;()<>$*?[]{}!#~=%^").

(** The ASCII part of the class [[\w\s-]]: letters, digits, underscore,
    TAB LF VT FF CR, space and hyphen. *)
Definition ascii_keep (c : Z) : bool :=
  ((65 <=? c) && (c <=? 90)) || ((97 <=? c) && (c <=? 122)) ||
  ((48 <=? c) && (c <=? 57)) || (c =? 95) ||
  ((9 <=? c) && (c <=? 13)) || (c =? 32) || (c =? 45).

Definition is_digit (c : Z) : bool := (48 <=? c) && (c <=? 57).

(** The rule of the specification, for a given notion of letter: a code
    unit of the hint survives exactly when it is a letter, a digit, white
    space or a hyphen. *)
Definition strips_all_but_letters_digits_space_hyphen (is_letter : Z -> bool) : Prop :=
  forall (hint : jsstring) (c : Z),
    List.In c (strip hint) <->
    List.In c hint /\ (is_letter c || is_digit c || is_space c || (c =? 45)) = true.

(** The text allowed bare inside an HTTP quoted string:
    TAB, space, [!], [#] to [[], []] to [~], and the bytes 128 to 255. *)
Definition qdtext (c : Z) : bool :=
  (c =? 9) || (c =? 32) || (c =? 33) || ((35 <=? c) && (c <=? 91)) ||
  ((93 <=? c) && (c <=? 126)) || ((128 <=? c) && (c <=? 255)).

(** What may follow a backslash inside a quoted string. *)
Definition quotable (c : Z) : bool :=
  (c =? 9) || ((32 <=? c) && (c <=? 126)) || ((128 <=? c) && (c <=? 255)).

(** The rest of a quoted string after its opening quote: text and escaped
    pairs up to a closing quote, which ends the value. *)
Fixpoint quoted_string_tail (s : jsstring) : bool :=
  match s with
  | [] => false
  | c :: r =>
      if c =? 34 then match r with [] => true | _ => false end
      else if c =? 92 then
        match r with
        | d :: r' => quotable d && quoted_string_tail r'
        | [] => false
        end
      else qdtext c && quoted_string_tail r
  end.

Definition quoted_string (s : jsstring) : bool :=
  match s with
  | c :: r => (c =? 34) && quoted_string_tail r
  | [] => false
  end.

(** [attachment; filename=] followed by one quoted string. *)
Definition disposition_wellformed (v : jsstring) : bool :=
  starts_with (lit "attachment; filename=") v &&
  quoted_string (skipn (List.length (lit "attachment; filename=")) v).

(** White space that may stand in a header value: TAB, space and U+00A0. *)
Definition header_space (c : Z) : Prop := c = 9 \/ c = 32 \/ c = 160.

End Classes.

(** The process seen alone, without the timer. *)
Module Race.

Import Runner.

(** When, and how, the process on its own settles the promise: its first
    [close] or [error] event, with the diagnostic text gathered before it. *)
Fixpoint process_resolution (outputPath : jsstring) (elapsed : Z) (err : jsstring)
  (p : list (N * pevent)) : option (Z * promise) :=
  match p with
  | [] => None
  | (d, e) :: r =>
      let t := elapsed + Z.of_N d in
      match e with
      | StderrData chunk => process_resolution outputPath t (err ++ chunk) r
      | Close (Some 0) => Some (t, Fulfilled outputPath)
      | Close code => Some (t, Rejected (exitMessage code err))
      | ProcError m => Some (t, Rejected (errorPrefix ++ m))
      end
  end.

(** The deadline elapses before the process resolves. *)
Definition deadline_first (outputPath : jsstring) (elapsed : Z) (err : jsstring)
  (p : list (N * pevent)) : bool :=
  match process_resolution outputPath elapsed err p with
  | Some (t, _) => 600 * 1000 <=? t
  | None => true
  end.

Definition settled (st : state) : Prop := slot st <> Pending.

End Race.

(** Segments of a path. *)
Module Segments.

Import Path.

(** Every segment gathered so far is non-empty. *)
Definition segments_ok (acc : list jsstring) : Prop := Forall (fun s => s <> []) acc.

(** A plain name: not empty, no separator, and neither [.] nor [..]. *)
Definition plain (name : jsstring) : Prop :=
  ~ List.In slash name /\ exists c, List.In c name /\ c <> 46.

End Segments.

(** A request whose URL holds double quotes. *)
Module Command.

(** A playlist URL with a quoted query value. *)
Definition quotedUrl : jsstring :=
  lit "https://h/a.m3u8?t=" ++ [34] ++ lit "x" ++ [34].

End Command.

(** Runs of ffmpeg on a playlist. *)
Module Scenario.

Import Runner Sys.

Definition clipUrl : jsstring := lit "https://cdn.example/live/index.m3u8".
Definition clipPath : jsstring :=
  lit "/tmp/123e4567-e89b-42d3-a456-426614174000_clip.mp4".

(** ffmpeg exits with code 0 after a second and leaves four bytes at the
    output path; the read of that file is refused. *)
Definition unreadableEnv : Env :=
  mkEnv (lit "/tmp") (lit "123e4567-e89b-42d3-a456-426614174000")
        [(1000%N, Close (Some 0))]
        (Some [Byte.x00; Byte.x00; Byte.x00; Byte.x18])
        (Some (lit "EACCES: permission denied, open"))
        None.

(** ffmpeg writes a partial file, reports on stderr and exits with code 1. *)
Definition failingEnv : Env :=
  mkEnv (lit "/tmp") (lit "123e4567-e89b-42d3-a456-426614174000")
        [(10%N, StderrData (lit "Invalid data found")); (20%N, Close (Some 1))]
        (Some [Byte.x00; Byte.x00])
        None
        None.

(** ffmpeg exits with code 0 after a second and leaves two bytes at the
    output path; the file system refuses nothing. *)
Definition convertedEnv : Env :=
  mkEnv (lit "/tmp") (lit "123e4567-e89b-42d3-a456-426614174000")
        [(1000%N, Close (Some 0))]
        (Some [Byte.x00; Byte.x18])
        None
        None.

(** A file-name hint with a line feed, and the temporary path made of it. *)
Definition twoLines : jsstring := lit "a" ++ [10] ++ lit "b".
Definition twoLinesPath : jsstring :=
  lit "/tmp/123e4567-e89b-42d3-a456-426614174000_a" ++ [10] ++ lit "b.mp4".

End Scenario.

(* ================================================================== *)
(** ** Input validation ([src/lib/validation.ts]) *)

Module Validation.

(** [{ valid: boolean; error?: string }] *)
Record Result : Type := mkResult {
  valid : bool;
  error : option jsstring
}.

(** [!s] for a string: only the empty string is falsy. *)
Definition falsy (s : jsstring) : bool :=
  match s with
  | [] => true
  | _ :: _ => false
  end.

(** [s.length] *)
Definition len (s : jsstring) : Z := Z.of_nat (List.length s).

(** The class [[a-zA-Z0-9_-]]. *)
Definition is_username_char (c : Z) : bool :=
  ((97 <=? c) && (c <=? 122)) || ((65 <=? c) && (c <=? 90)) ||
  ((48 <=? c) && (c <=? 57)) || (c =? 95) || (c =? 45).

(** [/^[a-zA-Z0-9_-]+$/.test(s)]: one or more characters of the class from
    the start to the end of the string. *)
Definition usernameRegex (s : jsstring) : bool :=
  match s with
  | [] => false
  | _ :: _ => forallb is_username_char s
  end.

(** ['用户名不能为空'] *)
Definition usernameEmpty : jsstring :=
  [29992; 25143; 21517; 19981; 33021; 20026; 31354].
(** ['用户名长度必须在3-20个字符之间'] *)
Definition usernameLength : jsstring :=
  [29992; 25143; 21517; 38271; 24230; 24517; 39035; 22312] ++ lit "3-20" ++
  [20010; 23383; 31526; 20043; 38388].
(** ['用户名只能包含字母、数字、下划线和连字符'] *)
Definition usernameChars : jsstring :=
  [29992; 25143; 21517; 21482; 33021; 21253; 21547; 23383; 27597; 12289;
   25968; 23383; 12289; 19979; 21010; 32447; 21644; 36830; 23383; 31526].

Definition validateUsername (username : jsstring) : Result :=
  if falsy username then mkResult false (Some usernameEmpty)
  else if (len username <? 3) || (len username >? 20)
  then mkResult false (Some usernameLength)
  else if negb (usernameRegex username)
  then mkResult false (Some usernameChars)
  else mkResult true None.

(** ['密码不能为空'] *)
Definition passwordEmpty : jsstring := [23494; 30721; 19981; 33021; 20026; 31354].
(** ['密码长度必须在6-128个字符之间'] *)
Definition passwordLength : jsstring :=
  [23494; 30721; 38271; 24230; 24517; 39035; 22312] ++ lit "6-128" ++
  [20010; 23383; 31526; 20043; 38388].

Definition validatePassword (password : jsstring) : Result :=
  if falsy password then mkResult false (Some passwordEmpty)
  else if (len password <? 6) || (len password >? 128)
  then mkResult false (Some passwordLength)
  else mkResult true None.

(** *** The expression [/<script|javascript:|data:|vbscript:|on\w+=/i] *)

(** Case folding of the [i] flag, as far as it meets the ASCII characters
    of the pattern: a lower-case ASCII letter folds to its capital; no code
    unit above 127 folds onto an ASCII one. *)
Definition fold_case (c : Z) : Z :=
  if (97 <=? c) && (c <=? 122) then c - 32 else c.

(** The literal [p] matches, case ignored, at the start of [s]. *)
Fixpoint starts_with_ci (p s : jsstring) : bool :=
  match p, s with
  | [], _ => true
  | _ :: _, [] => false
  | a :: p', b :: s' => (fold_case a =? fold_case b) && starts_with_ci p' s'
  end.

(** [\w+=]: one or more word characters, then the equals sign. *)
Fixpoint word_plus_eq (s : jsstring) : bool :=
  match s with
  | [] => false
  | c :: r => is_word c && (starts_with [61] r || word_plus_eq r)
  end.

(** [on\w+=] at the start of [s]. *)
Definition handler_at (s : jsstring) : bool :=
  starts_with_ci (lit "on") s && word_plus_eq (skipn 2 s).

(** One of the five alternatives matches at the start of [s]. *)
Definition dangerous_at (s : jsstring) : bool :=
  starts_with_ci (lit "<script") s || starts_with_ci (lit "javascript:") s ||
  starts_with_ci (lit "data:") s || starts_with_ci (lit "vbscript:") s ||
  handler_at s.

(** [dangerousChars.test(s)]: a match at some position. *)
Fixpoint dangerousChars (s : jsstring) : bool :=
  dangerous_at s ||
  match s with
  | [] => false
  | _ :: r => dangerousChars r
  end.

(** ['搜索关键词不能为空'] *)
Definition queryEmpty : jsstring :=
  [25628; 32034; 20851; 38190; 35789; 19981; 33021; 20026; 31354].
(** ['搜索关键词长度不能超过100个字符'] *)
Definition queryLength : jsstring :=
  [25628; 32034; 20851; 38190; 35789; 38271; 24230; 19981; 33021; 36229; 36807] ++
  lit "100" ++ [20010; 23383; 31526].
(** ['搜索关键词包含非法字符'] *)
Definition queryChars : jsstring :=
  [25628; 32034; 20851; 38190; 35789; 21253; 21547; 38750; 27861; 23383; 31526].

Definition validateSearchQuery (query : jsstring) : Result :=
  if falsy query then mkResult false (Some queryEmpty)
  else if len query >? 100 then mkResult false (Some queryLength)
  else if dangerousChars query then mkResult false (Some queryChars)
  else mkResult true None.

(** ['视频ID不能为空'] *)
Definition videoIdEmpty : jsstring :=
  [35270; 39057] ++ lit "ID" ++ [19981; 33021; 20026; 31354].
(** ['视频ID长度不能超过200个字符'] *)
Definition videoIdLength : jsstring :=
  [35270; 39057] ++ lit "ID" ++ [38271; 24230; 19981; 33021; 36229; 36807] ++
  lit "200" ++ [20010; 23383; 31526].

Definition validateVideoId (videoId : jsstring) : Result :=
  if falsy videoId then mkResult false (Some videoIdEmpty)
  else if len videoId >? 200 then mkResult false (Some videoIdLength)
  else mkResult true None.

(** *** [sanitizeString] *)

(** [s.slice(0, e)]: a negative end counts from the end of the string. *)
Definition slice0 (s : jsstring) (e : Z) : jsstring :=
  let to := if e <? 0 then Z.max (len s + e) 0 else Z.min e (len s) in
  firstn (Z.to_nat to) s.

(** [s.replace(/c/g, rep)] for a single character [c]. *)
Definition replace_all (c : Z) (rep : jsstring) (s : jsstring) : jsstring :=
  flat_map (fun x => if x =? c then rep else [x]) s.

Definition sanitizeString (input : jsstring) (maxLength : Z) : jsstring :=
  if falsy input then []
  else
    let sanitized := slice0 input maxLength in
    let sanitized :=
      replace_all 47 (lit "&#x2F;")
        (replace_all 39 (lit "&#x27;")
           (replace_all 34 (lit "&quot;")
              (replace_all 62 (lit "&gt;")
                 (replace_all 60 (lit "&lt;")
                    (replace_all 38 (lit "&amp;") sanitized))))) in
    sanitized.

(** The default [maxLength = 1000]. *)
Definition sanitizeStringDefault (input : jsstring) : jsstring :=
  sanitizeString input 1000.

(** *** [validatePagination] *)

(** A JavaScript number that is an integer or [NaN] ([None]). *)
Definition Number : Type := option Z.

Definition isNaN (n : Number) : bool :=
  match n with None => true | Some _ => false end.

(** Comparisons with [NaN] are false. *)
Definition num_lt (n : Number) (k : Z) : bool :=
  match n with None => false | Some v => v <? k end.

Definition num_gt (n : Number) (k : Z) : bool :=
  match n with None => false | Some v => v >? k end.

Definition is_dec_digit (c : Z) : bool := (48 <=? c) && (c <=? 57).

Fixpoint skip_space (s : jsstring) : jsstring :=
  match s with
  | [] => []
  | c :: r => if is_space c then skip_space r else s
  end.

(** The value of the longest prefix of decimal digits. *)
Fixpoint digits_prefix (acc : Z) (s : jsstring) : Z :=
  match s with
  | [] => acc
  | c :: r => if is_dec_digit c then digits_prefix (acc * 10 + (c - 48)) r else acc
  end.

(** [parseInt(s, 10)]: leading white space, an optional sign, then the
    longest run of decimal digits; [NaN] without a digit.  The value is
    exact; the handler only compares it with small bounds, where the
    rounding of very long digit runs makes no difference. *)
Definition parseInt10 (s : jsstring) : Number :=
  let s1 := skip_space s in
  let (sign, s2) :=
    match s1 with
    | c :: r => if c =? 45 then (-1, r) else if c =? 43 then (1, r) else (1, s1)
    | [] => (1, s1)
    end in
  match s2 with
  | c :: _ => if is_dec_digit c then Some (sign * digits_prefix 0 s2) else None
  | [] => None
  end.

(** [{ valid; error?; page?; limit? }] *)
Record Pagination : Type := mkPagination {
  p_valid : bool;
  p_error : option jsstring;
  page : option Number;
  limit : option Number
}.

(** An optional string argument is truthy when present and not empty. *)
Definition truthy (a : option jsstring) : bool :=
  match a with
  | Some (_ :: _) => true
  | _ => false
  end.

Definition text (a : option jsstring) : jsstring :=
  match a with Some s => s | None => [] end.

(** ['页码参数不正确'] *)
Definition pageError : jsstring := [39029; 30721; 21442; 25968; 19981; 27491; 30830].
(** ['每页数量参数不正确'] *)
Definition limitError : jsstring :=
  [27599; 39029; 25968; 37327; 21442; 25968; 19981; 27491; 30830].

Definition validatePagination (pageArg limitArg : option jsstring) : Pagination :=
  let pageNum : Number := if truthy pageArg then parseInt10 (text pageArg) else Some 1 in
  if truthy pageArg && (isNaN pageNum || num_lt pageNum 1 || num_gt pageNum 10000)
  then mkPagination false (Some pageError) None None
  else
    let limitNum : Number :=
      if truthy limitArg then parseInt10 (text limitArg) else Some 20 in
    if truthy limitArg && (isNaN limitNum || num_lt limitNum 1 || num_gt limitNum 100)
    then mkPagination false (Some limitError) None None
    else mkPagination true None (Some pageNum) (Some limitNum).

End Validation.

(* ================================================================== *)
(** ** The detail and search handlers ([src/app/api/detail/route.ts])

    Both handlers read their parameters from the query string and call the
    catalogue modules [@/lib/config] and [@/lib/downstream], which are not
    part of the sources at hand: the sites, what a site answers and the
    cache time are taken from the environment, and the handlers log each
    call they make. *)

Module Catalog.

Import Validation.

Section Handlers.

(** A configured site, of which the handlers use the [key] only; the
    payload of a detail answer; one search result. *)
Variable Site : Type.
Variable key : Site -> jsstring.
Variable Detail : Type.
Variable Item : Type.

Inductive call : Type :=
| GetSites                                       (* getAvailableApiSites() *)
| GetDetail (site : Site) (id : jsstring)        (* getDetailFromApi(site, id) *)
| Search (site : Site) (query : jsstring)        (* searchFromApi(site, query) *)
| GetCacheTime.                                  (* getCacheTime() *)

(** Each call either returns or throws an [Error] with a message. *)
Record Env : Type := mkEnv {
  apiSites : list Site + jsstring;
  detailOf : Site -> jsstring -> Detail + jsstring;
  resultsOf : Site -> jsstring -> list Item + jsstring;
  cacheTime : Z + jsstring
}.

(** Computations that log their calls and may throw. *)
Definition E (A : Type) : Type := list call -> (A + jsstring) * list call.

Definition ret {A} (a : A) : E A := fun l => (inl a, l).

Definition bind {A B} (c : E A) (k : A -> E B) : E B :=
  fun l =>
    match c l with
    | (inl a, l') => k a l'
    | (inr m, l') => (inr m, l')
    end.

Definition try_catch {A} (body : E A) (handler : jsstring -> E A) : E A :=
  fun l =>
    match body l with
    | (inl a, l') => (inl a, l')
    | (inr m, l') => handler m l'
    end.

Definition request {A} (c : call) (answer : A + jsstring) : E A :=
  fun l => (answer, l ++ [c]).

Definition getAvailableApiSites (env : Env) : E (list Site) :=
  request GetSites (apiSites env).

Definition getDetailFromApi (env : Env) (site : Site) (id : jsstring) : E Detail :=
  request (GetDetail site id) (detailOf env site id).

Definition getCacheTime (env : Env) : E Z := request GetCacheTime (cacheTime env).

(** [Promise.all]: the answers in the order of the promises, or the failure
    of one of them (the handler does not look at which). *)
Fixpoint all {A} (answers : list (A + jsstring)) : list A + jsstring :=
  match answers with
  | [] => inl []
  | a :: rest =>
      match a, all rest with
      | inl x, inl xs => inl (x :: xs)
      | inr m, _ => inr m
      | inl _, inr m => inr m
      end
  end.

(** [apiSites.map((site) => searchFromApi(site, query))] followed by
    [await Promise.all(...)]: every search is started, in the order of the
    sites, before any answer is awaited. *)
Definition searchAll (env : Env) (sites : list Site) (query : jsstring)
  : E (list (list Item)) :=
  fun l =>
    (all (map (fun site => resultsOf env site query) sites),
     l ++ map (fun site => Search site query) sites).

Inductive Response : Type :=
| ErrorJson (status : Z) (error : option jsstring)
| DetailJson (result : Detail) (cacheControl : jsstring)
| ResultsJson (results : list Item) (cacheControl : jsstring).

(** [`public, max-age=${cacheTime}`] *)
Definition cacheControlOf (t : Z) : jsstring := lit "public, max-age=" ++ show_int t.

(** ['缺少必要参数'] *)
Definition missingParams : jsstring := [32570; 23569; 24517; 35201; 21442; 25968].
(** ['无效的API来源'] *)
Definition invalidSource : jsstring :=
  [26080; 25928; 30340] ++ lit "API" ++ [26469; 28304].
(** ['搜索失败'] *)
Definition searchFailed : jsstring := [25628; 32034; 22833; 36133].

(** The detail handler; [id] and [sourceCode] are what
    [searchParams.get] returned. *)
Definition detailGET (env : Env) (id sourceCode : option jsstring) : E Response :=
  if negb (truthy id) || negb (truthy sourceCode)
  then ret (ErrorJson 400 (Some missingParams))
  else
    let idValidation := validateVideoId (text id) in
    if negb (valid idValidation) then ret (ErrorJson 400 (error idValidation))
    else
      let cleanSourceCode := sanitizeString (text sourceCode) 50 in
      try_catch
        (bind (getAvailableApiSites env) (fun sites =>
           match find (fun site => eqb_str (key site) cleanSourceCode) sites with
           | None => ret (ErrorJson 400 (Some invalidSource))
           | Some apiSite =>
               bind (getDetailFromApi env apiSite (text id)) (fun result =>
               bind (getCacheTime env) (fun t =>
               ret (DetailJson result (cacheControlOf t))))
           end))
        (fun message => ret (ErrorJson 500 (Some message))).

(** The search handler; [query] is what [searchParams.get('q')] returned. *)
Definition searchGET (env : Env) (query : option jsstring) : E Response :=
  if negb (truthy query)
  then bind (getCacheTime env) (fun t => ret (ResultsJson [] (cacheControlOf t)))
  else
    let queryValidation := validateSearchQuery (text query) in
    if negb (valid queryValidation) then ret (ErrorJson 400 (error queryValidation))
    else
      bind (getAvailableApiSites env) (fun sites =>
        try_catch
          (bind (searchAll env sites (text query)) (fun results =>
           let flattenedResults := List.concat results in
           bind (getCacheTime env) (fun t =>
           ret (ResultsJson flattenedResults (cacheControlOf t)))))
          (fun _ => ret (ErrorJson 500 (Some searchFailed)))).

End Handlers.

End Catalog.

(* ================================================================== *)
(** ** Vocabulary of the properties of the validators *)

Module Escaping.

Import Validation.

(** The six characters that [sanitizeString] rewrites. *)
Definition special (c : Z) : bool :=
  (c =? 38) || (c =? 60) || (c =? 62) || (c =? 34) || (c =? 39) || (c =? 47).

(** The entity written for a character, or the character itself. *)
Definition escape (c : Z) : jsstring :=
  if c =? 38 then lit "&amp;"
  else if c =? 60 then lit "&lt;"
  else if c =? 62 then lit "&gt;"
  else if c =? 34 then lit "&quot;"
  else if c =? 39 then lit "&#x27;"
  else if c =? 47 then lit "&#x2F;"
  else [c].

(** What follows the ampersand of each entity. *)
Definition entity_tails : list jsstring :=
  [lit "amp;"; lit "lt;"; lit "gt;"; lit "quot;"; lit "#x27;"; lit "#x2F;"].

(** [needle] occurs in [s], the case of ASCII letters ignored. *)
Definition occurs_ci (needle s : jsstring) : Prop :=
  exists pre mid post,
    s = pre ++ mid ++ post /\ map fold_case mid = map fold_case needle.

(** An event-handler attribute occurs in [s]: [on] in any case, one or
    more word characters, an equals sign. *)
Definition handler_occurs (s : jsstring) : Prop :=
  exists pre o n w post,
    s = pre ++ o :: n :: w ++ 61 :: post /\
    fold_case o = 79 /\ fold_case n = 78 /\
    w <> [] /\ Forall (fun c => is_word c = true) w.

(** A run of decimal digits. *)
Definition all_digits (d : jsstring) : Prop :=
  d <> [] /\ Forall (fun c => is_dec_digit c = true) d.

(** [t] does not go on with a digit. *)
Definition no_digit_ahead (t : jsstring) : Prop :=
  match t with
  | [] => True
  | c :: _ => is_dec_digit c = false
  end.

End Escaping.

(** A catalogue of two sites that answer every call; the sites are their
    own keys. *)
Module CatalogScenario.

Definition twoSites : Catalog.Env jsstring jsstring jsstring :=
  Catalog.mkEnv
    (inl [lit "a/b"; lit "douban"])
    (fun site id => inl (site ++ lit ":" ++ id))
    (fun site query => inl [site ++ lit "?" ++ query])
    (inl 7200).

(** The same catalogue when the second site fails to answer a search. *)
Definition secondFails : Catalog.Env jsstring jsstring jsstring :=
  Catalog.mkEnv
    (inl [lit "a/b"; lit "douban"])
    (fun site id => inl (site ++ lit ":" ++ id))
    (fun site query =>
       if eqb_str site (lit "douban") then inr (lit "fetch failed")
       else inl [site ++ lit "?" ++ query])
    (inl 7200).

(** The catalogue whose configuration cannot be read. *)
Definition noConfig : Catalog.Env jsstring jsstring jsstring :=
  Catalog.mkEnv
    (inr (lit "config unavailable"))
    (fun site id => inl (site ++ lit ":" ++ id))
    (fun site query => inl [site ++ lit "?" ++ query])
    (inl 7200).

End CatalogScenario.

(* ================================================================== *)
(** * Properties *)

(** ** Strings *)

Section StringFacts.

Lemma lit_app (a b : string) : lit (a ++ b)%string = lit a ++ lit b.
Proof.
  induction a as [|x a IH]; simpl; [reflexivity | now rewrite IH].
Qed.

Lemma starts_with_prefix (p s : jsstring) :
  starts_with p s = true <-> exists post, s = p ++ post.
Proof.
  revert s; induction p as [|a p IH]; intros s; simpl.
  - split; [intros _; now exists s | reflexivity].
  - destruct s as [|b s].
    + split; [discriminate | intros [post H]; discriminate].
    + rewrite andb_true_iff, Z.eqb_eq, IH. split.
      * intros [-> [post ->]]. now exists post.
      * intros [post H]. injection H as -> ->. split; [reflexivity | now exists post].
Qed.

(** [includes] is the substring relation. *)
Lemma includes_substring (s needle : jsstring) :
  includes s needle = true <-> exists pre post, s = pre ++ needle ++ post.
Proof.
  induction s as [|a s IH].
  - simpl. rewrite orb_false_r, starts_with_prefix. split.
    + intros [post H]. now exists [], post.
    + intros [pre [post H]]. destruct pre; [now exists post | discriminate].
  - cbn [includes]. rewrite orb_true_iff, starts_with_prefix, IH. split.
    + intros [[post H] | [pre [post H]]].
      * now exists [], post.
      * exists (a :: pre), post. simpl. now rewrite H.
    + intros [pre [post H]]. destruct pre as [|b pre].
      * left. now exists post.
      * right. injection H as -> ->. now exists pre, post.
Qed.

Lemma strip_In (s : jsstring) (c : Z) :
  List.In c (strip s) <-> List.In c s /\ kept c = true.
Proof. unfold strip. apply filter_In. Qed.

End StringFacts.

(** Evaluates the code units of ASCII literals. *)
Ltac codes :=
  repeat match goal with
         | |- context [code ?a] =>
             let v := eval vm_compute in (code a) in change (code a) with v
         | H : context [code ?a] |- _ =>
             let v := eval vm_compute in (code a) in change (code a) with v in H
         end.

(** Unfolds the character classes down to linear arithmetic on the code unit. *)
Ltac classes :=
  unfold kept, is_word, is_space in *;
  repeat match goal with
         | H : _ = true |- _ =>
             rewrite ?orb_true_iff, ?andb_true_iff, ?Z.leb_le, ?Z.ltb_lt, ?Z.eqb_eq in H
         | H : _ = false |- _ =>
             rewrite ?orb_false_iff, ?andb_false_iff, ?Z.leb_gt, ?Z.ltb_ge, ?Z.eqb_neq in H
         end;
  rewrite ?orb_true_iff, ?andb_true_iff, ?orb_false_iff, ?andb_false_iff,
    ?Z.leb_le, ?Z.leb_gt, ?Z.ltb_lt, ?Z.ltb_ge, ?Z.eqb_eq, ?Z.eqb_neq.

(** ** File naming *)

Module FileNaming.

Import Classes.

Lemma kept_ascii (c : Z) : 0 <= c < 128 -> kept c = ascii_keep c.
Proof.
  intros Hc. unfold ascii_keep.
  destruct (kept c) eqn:K; symmetry; classes; lia.
Qed.

Lemma kept_safe (c : Z) :
  kept c = true ->
  c <> 47 /\ shell_meta c = false /\ (is_control c = true -> 9 <= c <= 13).
Proof.
  intros K. unfold shell_meta, is_control.
  split; [|split].
  - classes; lia.
  - simpl. codes. classes. repeat split; try reflexivity; lia.
  - intros C. classes. lia.
Qed.

Lemma ext_safe (c : Z) :
  List.In c (lit ".mp4") ->
  c <> 47 /\ shell_meta c = false /\ (is_control c = true -> 9 <= c <= 13).
Proof.
  simpl. codes.
  intros [<- | [<- | [<- | [<- | []]]]];
    (split; [|split]); try lia; try reflexivity; discriminate.
Qed.

(** No double quote, slash or backslash survives the derivation. *)
Lemma deriveFileName_no_delimiter (hint : option jsstring) (c : Z) :
  List.In c (deriveFileName hint) -> c <> 34 /\ c <> 47 /\ c <> 92.
Proof.
  unfold deriveFileName. rewrite in_app_iff, strip_In.
  intros [[_ K] | E].
  - classes; lia.
  - simpl in E. codes.
    destruct E as [<- | [<- | [<- | [<- | []]]]]; lia.
Qed.

(** C3 (as stated, refuted): a line feed is a control character and
    survives the derivation; and no notion of letter that excludes the
    underscore, or that includes the letter U+00E9, makes the stripping rule
    of the claim true of [strip]. *)
Lemma deriveFileName_keeps_line_feed_and_underscore :
  ~ (forall (hint : jsstring) (c : Z),
        List.In c hint -> is_control c = true ->
        ~ List.In c (deriveFileName (Some hint))) /\
  ~ (exists is_letter : Z -> bool,
        (is_letter 95 = false \/ is_letter 233 = true) /\
        strips_all_but_letters_digits_space_hyphen is_letter).
Proof.
  split.
  - intros H. apply (H [97; 10; 98] 10); simpl; auto.
  - intros [is_letter [[U | E] H]].
    + destruct (H [95] 95) as [H1 _].
      destruct H1 as [_ H1]; [simpl; auto|].
      rewrite U in H1. discriminate H1.
    + destruct (H [233] 233) as [_ H1].
      rewrite E in H1. simpl in H1. apply H1. auto.
Qed.

(** C3 (amended): the derived name is a base followed by [.mp4]; an ASCII
    code unit occurs in the base exactly when it occurs in the hint (or in
    the default name) and is a letter, a digit, an underscore, TAB, LF, VT,
    FF, CR, a space or a hyphen; and the derived name holds no slash, no
    shell metacharacter other than white space, and no control character
    other than TAB, LF, VT, FF and CR. *)
Theorem deriveFileName_sanitizes (hint : option jsstring) :
  (exists base,
      deriveFileName hint = base ++ lit ".mp4" /\
      forall c, 0 <= c < 128 ->
        (List.In c base <-> List.In c (orDefault hint) /\ ascii_keep c = true)) /\
  (forall c, List.In c (deriveFileName hint) ->
      c <> 47 /\ shell_meta c = false /\ (is_control c = true -> 9 <= c <= 13)).
Proof.
  split.
  - exists (strip (orDefault hint)). split; [reflexivity|].
    intros c Hc. rewrite strip_In, (kept_ascii Hc). reflexivity.
  - intros c. unfold deriveFileName. rewrite in_app_iff, strip_In.
    intros [[_ K] | E]; [now apply kept_safe | now apply ext_safe].
Qed.

Lemma deriveFileName_sanitizes_witness :
  (exists base,
     deriveFileName (Some (lit "a/b;c")) = base ++ lit ".mp4" /\
     (List.In 47 base <->
      List.In 47 (orDefault (Some (lit "a/b;c"))) /\ ascii_keep 47 = true)) /\
  (98 <> 47 /\ shell_meta 98 = false /\ (is_control 98 = true -> 9 <= 98 <= 13)).
Proof.
  split.
  - destruct (proj1 (deriveFileName_sanitizes (Some (lit "a/b;c")))) as [base [E B]].
    exists base. split; [exact E|]. apply B. lia.
  - apply (proj2 (deriveFileName_sanitizes (Some (lit "a/b;c")))). simpl. auto.
Defined.

(** C9 (the code at the failing input): with the hint absent or empty the
    default base name is taken and then stripped whole, its two code units
    lying outside [[\w\s-]]; the derived name is the bare extension. *)
Theorem deriveFileName_default_is_bare_extension :
  deriveFileName None = lit ".mp4" /\
  deriveFileName (Some []) = lit ".mp4" /\
  strip defaultName = [].
Proof. repeat split. Qed.

End FileNaming.

(* ================================================================== *)
(** ** The race between the process and the deadline *)

Module RunnerFacts.

Import Runner Race.

Lemma handle_settled (out : jsstring) (st : state) (e : event) :
  settled st ->
  slot (handle out st e) = slot st /\
  resumptions (handle out st e) = resumptions st.
Proof.
  unfold settled. intros S.
  destruct e as [[chunk | [[|q|q]|] | m] |]; simpl;
    unfold resolve, reject; simpl;
    destruct (slot st) eqn:E; try contradiction; rewrite ?E; auto.
Qed.

(** A settled promise stays as it is, whatever arrives later. *)
Lemma drain_settled (out : jsstring) (evs : list event) (st : state) :
  settled st ->
  slot (drain out evs st) = slot st /\
  resumptions (drain out evs st) = resumptions st.
Proof.
  revert st. induction evs as [|e evs IH]; intros st S; simpl; [auto|].
  destruct (handle_settled out e S) as [H1 H2].
  destruct (IH (handle out st e)) as [H3 H4].
  - unfold settled. now rewrite H1.
  - unfold drain in *. rewrite H3, H4. auto.
Qed.

Lemma process_resolution_later (out : jsstring) (p : list (N * pevent)) :
  forall elapsed err t r,
    process_resolution out elapsed err p = Some (t, r) -> elapsed <= t.
Proof.
  induction p as [|[d e] p IH]; intros elapsed err t r; simpl; [discriminate|].
  destruct e as [chunk | [[|q|q]|] | m]; intros H;
    try (injection H as <- _; lia).
  apply IH in H. lia.
Qed.

(** The caller is resumed exactly once, by whichever comes first. *)
Lemma await_schedule (out : jsstring) (p : list (N * pevent)) :
  forall elapsed st,
    slot st = Pending ->
    exists st' late,
      await out (schedule_from elapsed p) st = Some (st', late) /\
      settled st' /\
      resumptions st' = S (resumptions st) /\
      (if deadline_first out elapsed (stderr st) p
       then slot st' = Rejected timeoutMessage /\
            kills st' = kills st ++ [lit "SIGKILL"]
       else Some (slot st') =
              option_map snd (process_resolution out elapsed (stderr st) p) /\
            kills st' = kills st).
Proof.
  unfold deadline_first, settled.
  induction p as [|[d e] p IH]; intros elapsed st P.
  - simpl. unfold reject. simpl. rewrite P. simpl.
    eexists _, _. repeat split. discriminate.
  - cbn [schedule_from].
    destruct (elapsed + Z.of_N d <? timeout_ms) eqn:T.
    + apply Z.ltb_lt in T. unfold timeout_ms in T.
      destruct e as [chunk | [[|q|q]|] | m]; cbn [await handle process_resolution];
        unfold resolve, reject; rewrite ?P; cbn [slot].
      1: { destruct (IH (elapsed + Z.of_N d)
                    (mkState Pending (stderr st ++ chunk) (kills st) (resumptions st))
                    eq_refl)
             as [st' [late [A R]]].
           rewrite A. now exists st', late. }
      all: eexists _, _; split; [reflexivity|]; split; [discriminate|];
        split; [reflexivity|];
        replace (600 * 1000 <=? elapsed + Z.of_N d) with false
          by (symmetry; apply Z.leb_gt; lia);
        split; reflexivity.
    + apply Z.ltb_ge in T. unfold timeout_ms in T.
      cbn [await handle]. unfold reject. cbn [slot]. rewrite P. cbn [slot].
      eexists _, _. split; [reflexivity|]. split; [discriminate|].
      split; [reflexivity|].
      destruct (process_resolution out elapsed (stderr st) ((d, e) :: p))
        as [[t r]|] eqn:F; [|split; reflexivity].
      replace (600 * 1000 <=? t) with true; [split; reflexivity|].
      symmetry. apply Z.leb_le.
      cbn [process_resolution] in F.
      destruct e as [chunk | [[|q|q]|] | m];
        try (injection F as <- _; lia).
      apply process_resolution_later in F. lia.
Qed.

(** C2: the delay of the timer is 600 seconds; the awaiting caller is
    resumed, and exactly once; when the deadline elapses before the process
    resolves, the process is sent SIGKILL and the result is the timeout
    error; when the process resolves first, the result is the one of its
    first [close] or [error] event and no signal is sent; and whatever
    arrives after the first resolution changes neither the result nor the
    number of resumptions. *)
Theorem conversion_race (outputPath : jsstring) (p : list (N * pevent)) :
  timeout_ms = 600 * 1000 /\
  exists st late,
    await outputPath (schedule p) init = Some (st, late) /\
    (deadline_first outputPath 0 [] p = true ->
       slot st = Rejected timeoutMessage /\ kills st = [lit "SIGKILL"]) /\
    (deadline_first outputPath 0 [] p = false ->
       Some (slot st) = option_map snd (process_resolution outputPath 0 [] p) /\
       kills st = []) /\
    resumptions st = 1%nat /\
    slot (drain outputPath late st) = slot st /\
    resumptions (drain outputPath late st) = 1%nat.
Proof.
  split; [reflexivity|].
  destruct (@await_schedule outputPath p 0 init eq_refl)
    as [st [late [A [S [R D]]]]].
  exists st, late. split; [exact A|].
  destruct (drain_settled outputPath late S) as [D1 D2].
  simpl in R, D.
  split; [intros E; rewrite E in D; exact D|].
  split; [intros E; rewrite E in D; exact D|].
  split; [exact R|]. split; [exact D1|]. now rewrite D2.
Qed.

Lemma conversion_race_witness :
  (exists st late,
     await (lit "/tmp/out.mp4")
           (schedule [(599999%N, StderrData (lit "frame=1")); (1%N, Close (Some 0))])
           init = Some (st, late) /\
     slot st = Rejected timeoutMessage /\ kills st = [lit "SIGKILL"]) /\
  (exists st late,
     await (lit "/tmp/out.mp4") (schedule [(1000%N, Close (Some 0))]) init =
       Some (st, late) /\
     Some (slot st) = Some (Fulfilled (lit "/tmp/out.mp4")) /\ kills st = []).
Proof.
  split.
  - destruct (conversion_race (lit "/tmp/out.mp4")
                [(599999%N, StderrData (lit "frame=1")); (1%N, Close (Some 0))])
      as [_ [st [late [A [T _]]]]].
    exists st, late. split; [exact A|]. apply T. reflexivity.
  - destruct (conversion_race (lit "/tmp/out.mp4") [(1000%N, Close (Some 0))])
      as [_ [st [late [A [_ [F _]]]]]].
    exists st, late. split; [exact A|]. apply F. reflexivity.
Defined.

End RunnerFacts.

(* ================================================================== *)
(** ** The handler *)

Module RouteFacts.

Import Runner Sys Route Race Scenario RunnerFacts.

(** The handler on a present URL that is not an HLS playlist. *)
Lemma POST_direct (env : Env) (url : jsstring) (hint : option jsstring) (w : World) :
  url <> [] ->
  isSegmentedStream url = false ->
  POST env (Json (Some url) hint) w =
  Some (inl (DirectDownload url (deriveFileName hint)), w).
Proof.
  intros N H. destruct url as [|c u]; [contradiction|].
  unfold POST, try_catch, bind, json, ret. rewrite H. reflexivity.
Qed.

(** The handler on an HLS playlist, one layer of [try] and [await] at a time. *)
Lemma POST_hls (env : Env) (url : jsstring) (hint : option jsstring) (w : World) :
  isSegmentedStream url = true ->
  let safe := deriveFileName hint in
  let failed := ConversionFailed conversionFailed suggestionText
                  (fallbackAdvisory url safe) url safe in
  POST env (Json (Some url) hint) w =
  match convertHLSToMP4 env url safe w with
  | None => None
  | Some (inr _, w1) => Some (inl failed, w1)
  | Some (inl outputPath, w1) =>
      match readFile env outputPath w1 with
      | None => None
      | Some (inr _, w2) => Some (inl failed, w2)
      | Some (inl fileBuffer, w2) =>
          match catch_ignore (unlink env outputPath) w2 with
          | Some (inl _, w3) =>
              if headers_ok (streamHeaders safe fileBuffer)
              then Some (inl (FileStream fileBuffer (streamHeaders safe fileBuffer)), w3)
              else Some (inl failed, w3)
          | Some (inr _, w3) => Some (inl failed, w3)
          | None => None
          end
      end
  end.
Proof.
  intros H. cbv zeta. destruct url as [|c u]; [discriminate H|].
  unfold POST, try_catch at 1 2, bind at 1 2 3 4, json, ret. rewrite H. cbn [negb].
  destruct (convertHLSToMP4 env (c :: u) (deriveFileName hint) w)
    as [[[outputPath | m] w1] |]; try reflexivity.
  destruct (readFile env outputPath w1) as [[[buf | m] w2] |]; try reflexivity.
  destruct (catch_ignore (unlink env outputPath) w2) as [[[[] | m] w3] |];
    try reflexivity.
  unfold newResponse, ret, throw.
  destruct (headers_ok (streamHeaders (deriveFileName hint) buf)); reflexivity.
Qed.

(** C5: a present URL is classified as a segmented stream exactly when
    [.m3u8] is a substring of it; and on a present URL without that
    substring the handler answers with the direct link, carrying the URL
    as it came and the derived file name, the world left as it was: no
    process spawned, no file touched. *)
Theorem direct_link_iff_not_segmented
  (env : Env) (url : jsstring) (hint : option jsstring) (w : World) :
  url <> [] ->
  (isSegmentedStream url = true <->
     exists pre post, url = pre ++ lit ".m3u8" ++ post) /\
  (~ (exists pre post, url = pre ++ lit ".m3u8" ++ post) ->
     POST env (Json (Some url) hint) w =
     Some (inl (DirectDownload url (deriveFileName hint)), w)).
Proof.
  intros N. split.
  - apply includes_substring.
  - intros H. apply POST_direct; [exact N|].
    destruct (isSegmentedStream url) eqn:E; [|reflexivity].
    exfalso. apply H. now apply includes_substring.
Qed.

Lemma direct_link_iff_not_segmented_witness :
  POST (mkEnv (lit "/tmp") [] [] None None None)
       (Json (Some (lit "https://cdn.example/movie.mp4?src=.m3u")) (Some (lit "movie")))
       (mkWorld [] []) =
  Some (inl (DirectDownload (lit "https://cdn.example/movie.mp4?src=.m3u")
                            (lit "movie.mp4")),
        mkWorld [] []).
Proof.
  apply (proj2 (@direct_link_iff_not_segmented
                  (mkEnv (lit "/tmp") [] [] None None None)
                  (lit "https://cdn.example/movie.mp4?src=.m3u")
                  (Some (lit "movie")) (mkWorld [] [])
                  ltac:(discriminate))).
  intros H. apply includes_substring in H. vm_compute in H. discriminate H.
Defined.

(** C8: without a URL, or with an empty one, the handler answers 400 at
    once and leaves the world as it was: no process, no advisory, no
    temporary file; a failed conversion is answered with another shape and
    another status. *)
Theorem missing_url_is_caller_error (env : Env) (hint : option jsstring) (w : World) :
  POST env (Json None hint) w = Some (inl (BadRequest missingUrl), w) /\
  POST env (Json (Some []) hint) w = Some (inl (BadRequest missingUrl), w) /\
  status (BadRequest missingUrl) = 400 /\
  (forall e s ms u f, status (ConversionFailed e s ms u f) = 200).
Proof. repeat split. Qed.

(** [convertHLSToMP4] always resumes its caller: it logs the spawn and the
    signals sent, leaves on disk what ffmpeg left there, and returns or
    throws according to the settled promise. *)
Lemma convert_outcome (env : Env) (url fn : jsstring) (w : World) :
  exists st late,
    await (tempPath env fn) (schedule (proc env)) init = Some (st, late) /\
    settled st /\
    convertHLSToMP4 env url fn w =
    Some (match slot st with
          | Fulfilled p => inl p
          | Rejected m => inr m
          | Pending => inl []
          end,
          mkWorld (ffmpeg_effect env (tempPath env fn) (files w))
                  ((calls w ++ [Spawn (lit "ffmpeg") (ffmpegArgs url (tempPath env fn))])
                   ++ map Kill (kills st))).
Proof.
  destruct (@await_schedule (tempPath env fn) (proc env) 0 init eq_refl)
    as [st [late [A [S _]]]].
  exists st, late. split; [exact A|]. split; [exact S|].
  unfold convertHLSToMP4, bind, call, schedule. rewrite A.
  cbn [files calls]. unfold settled in S.
  destruct (slot st); [contradiction | reflexivity | reflexivity].
Qed.

Lemma readFile_returns (env : Env) (p : jsstring) (w : World) :
  exists r, readFile env p w =
            Some (r, mkWorld (files w) (calls w ++ [ReadFile p])).
Proof.
  unfold readFile, bind, call, throw, ret. cbn [files calls].
  destruct (read_fault env); [eauto|].
  destruct (lookup p (files w)); eauto.
Qed.

(** The removal is attempted once and its failure is swallowed. *)
Lemma unlink_swallowed (env : Env) (p : jsstring) (w : World) :
  exists fs, catch_ignore (unlink env p) w =
             Some (inl tt, mkWorld fs (calls w ++ [Unlink p])).
Proof.
  unfold catch_ignore, try_catch, unlink, bind, call, throw, ret.
  cbn [files calls].
  destruct (unlink_fault env); [eauto|].
  destruct (lookup p (files w)); eauto.
Qed.

(** When the deadline elapses first, [convertHLSToMP4] has spawned ffmpeg,
    killed it, and throws the timeout error. *)
Lemma convert_timeout (env : Env) (url fn : jsstring) (w : World) :
  deadline_first (tempPath env fn) 0 [] (proc env) = true ->
  exists w',
    convertHLSToMP4 env url fn w = Some (inr timeoutMessage, w') /\
    calls w' = calls w ++ [Spawn (lit "ffmpeg") (ffmpegArgs url (tempPath env fn));
                           Kill (lit "SIGKILL")].
Proof.
  intros D.
  destruct (convert_outcome env url fn w) as [st [late [A [_ ->]]]].
  destruct (@await_schedule (tempPath env fn) (proc env) 0 init eq_refl)
    as [st' [late' [A' [_ [_ R]]]]].
  unfold schedule in A. rewrite A in A'. injection A' as <- <-.
  cbn [stderr kills init] in R. rewrite D in R. destruct R as [-> ->].
  eexists. split; [reflexivity|]. cbn [calls map app].
  now rewrite <- app_assoc.
Qed.

(** The handler answers every request: no path leaves the caller waiting
    and no error escapes the outer [catch]. *)
Lemma POST_returns (env : Env) (request : Request) (w : World) :
  exists r w', POST env request w = Some (inl r, w').
Proof.
  destruct request as [m | [[|c u]|] hint]; try (eexists _, _; reflexivity).
  destruct (isSegmentedStream (c :: u)) eqn:H.
  - rewrite (@POST_hls env _ hint w H). cbv zeta.
    destruct (convert_outcome env (c :: u) (deriveFileName hint) w)
      as [st [late [_ [_ ->]]]].
    destruct (slot st) as [|p|m]; try (eexists _, _; reflexivity).
    + destruct (readFile_returns env [] (mkWorld
               (ffmpeg_effect env (tempPath env (deriveFileName hint)) (files w))
               ((calls w ++ [Spawn (lit "ffmpeg")
                   (ffmpegArgs (c :: u) (tempPath env (deriveFileName hint)))])
                ++ map Kill (kills st)))) as [[buf | m] ->].
      * match goal with
        | |- context [catch_ignore (unlink env ?q) ?v] =>
            destruct (unlink_swallowed env q v) as [fs ->]
        end.
        match goal with
        | |- context [if ?b then _ else _] => destruct b
        end; eexists _, _; reflexivity.
      * eexists _, _; reflexivity.
    + match goal with
      | |- context [readFile env ?q ?v] =>
          destruct (readFile_returns env q v) as [[buf | m] ->]
      end.
      * match goal with
        | |- context [catch_ignore (unlink env ?q) ?v] =>
            destruct (unlink_swallowed env q v) as [fs ->]
        end.
        match goal with
        | |- context [if ?b then _ else _] => destruct b
        end; eexists _, _; reflexivity.
      * eexists _, _; reflexivity.
  - rewrite POST_direct; [eexists _, _; reflexivity | discriminate | exact H].
Qed.

(** Whenever the handler reports a failed conversion, it echoes the URL
    and the derived name of the request and lists the advisory for them. *)
Lemma failed_carries_advisory (env : Env) (request : Request) (w w' : World)
  (e s : jsstring) (ms : list Method) (u f : jsstring) :
  POST env request w = Some (inl (ConversionFailed e s ms u f), w') ->
  ms = fallbackAdvisory u f /\
  exists hint, request = Json (Some u) hint /\ f = deriveFileName hint.
Proof.
  destruct request as [m | [[|c r]|] hint]; try discriminate.
  destruct (isSegmentedStream (c :: r)) eqn:H.
  - rewrite (@POST_hls env _ hint w H). cbv zeta.
    assert (G : forall w1,
      Some (@inl Response jsstring
              (ConversionFailed conversionFailed suggestionText
                 (fallbackAdvisory (c :: r) (deriveFileName hint))
                 (c :: r) (deriveFileName hint)), w1) =
      Some (inl (ConversionFailed e s ms u f), w') ->
      ms = fallbackAdvisory u f /\
      exists hint0, Json (Some (c :: r)) hint = Json (Some u) hint0 /\
                    f = deriveFileName hint0).
    { intros w1 E. injection E as _ _ <- <- <- _.
      split; [reflexivity|]. now exists hint. }
    destruct (convertHLSToMP4 env (c :: r) (deriveFileName hint) w)
      as [[[p | m] w1] |]; [|apply G|discriminate].
    destruct (readFile env p w1) as [[[buf | m] w2] |]; [|apply G|discriminate].
    destruct (catch_ignore (unlink env p) w2) as [[[[] | m] w3] |];
      [|apply G|discriminate].
    destruct (headers_ok (streamHeaders (deriveFileName hint) buf));
      [discriminate | apply G].
  - rewrite POST_direct; [discriminate | discriminate | exact H].
Qed.

(** C6: the advisory is a function of the URL and the file name alone: four
    entries in a fixed order, the first two with the [yt-dlp] and [ffmpeg]
    commands in which the URL and the file name stand between double
    quotes as they came, the last two with a note and without a command;
    and every failed conversion lists exactly this advisory for the URL
    and the derived name of its request. *)
Theorem advisory_is_fixed (url fn : jsstring) :
  map name (fallbackAdvisory url fn) =
    [lit "yt-dlp"; lit "FFmpeg"; lit "IDM (Internet Download Manager)";
     [36805; 38647]] /\
  map command (fallbackAdvisory url fn) =
    [Some (lit "yt-dlp " ++ [34] ++ url ++ [34] ++ lit " -o " ++ [34] ++ fn ++ [34]);
     Some (lit "ffmpeg -i " ++ [34] ++ url ++ [34] ++ lit " -c copy " ++ [34] ++ fn ++ [34]);
     None; None] /\
  (exists n1 n2, map note (fallbackAdvisory url fn) = [None; None; Some n1; Some n2]) /\
  (forall env hint w e s ms u f w',
      POST env (Json (Some url) hint) w =
        Some (inl (ConversionFailed e s ms u f), w') ->
      u = url /\ f = deriveFileName hint /\ ms = fallbackAdvisory url (deriveFileName hint)).
Proof.
  split; [reflexivity|]. split; [reflexivity|]. split; [eexists _, _; reflexivity|].
  intros env hint w e s ms u f w' H.
  destruct (failed_carries_advisory _ _ _ H) as [-> [hint' [E ->]]].
  injection E as -> ->. auto.
Qed.

Lemma eqb_str_refl (a : jsstring) : eqb_str a a = true.
Proof. unfold eqb_str. destruct (list_eq_dec Z.eq_dec a a); congruence. Qed.

(** When ffmpeg exits with code 0 and the output is read, the handler asks
    once for the removal of the temporary file, whether or not the removal
    succeeds; it then streams the bytes, or reports a failed conversion
    when the response cannot be built. *)
Lemma success_unlinks_once (env : Env) (url : jsstring) (hint : option jsstring)
  (w w1 w2 : World) (p : jsstring) (buf : bytes) :
  isSegmentedStream url = true ->
  convertHLSToMP4 env url (deriveFileName hint) w = Some (inl p, w1) ->
  readFile env p w1 = Some (inl buf, w2) ->
  exists resp w3,
    POST env (Json (Some url) hint) w = Some (inl resp, w3) /\
    resp = (if headers_ok (streamHeaders (deriveFileName hint) buf)
            then FileStream buf (streamHeaders (deriveFileName hint) buf)
            else ConversionFailed conversionFailed suggestionText
                   (fallbackAdvisory url (deriveFileName hint))
                   url (deriveFileName hint)) /\
    calls w3 = calls w1 ++ [ReadFile p; Unlink p] /\
    unlink_attempts p w3 = S (unlink_attempts p w1).
Proof.
  intros H C R. rewrite (@POST_hls env _ hint w H). cbv zeta. rewrite C, R.
  destruct (readFile_returns env p w1) as [r R']. rewrite R in R'.
  injection R' as _ ->.
  match goal with
  | |- context [catch_ignore (unlink env ?q) ?v] =>
      destruct (unlink_swallowed env q v) as [fs ->]
  end.
  exists (if headers_ok (streamHeaders (deriveFileName hint) buf)
          then FileStream buf (streamHeaders (deriveFileName hint) buf)
          else ConversionFailed conversionFailed suggestionText
                 (fallbackAdvisory url (deriveFileName hint))
                 url (deriveFileName hint)),
    (mkWorld fs ((calls w1 ++ [ReadFile p]) ++ [Unlink p])).
  split; [destruct (headers_ok _); reflexivity|].
  split; [reflexivity|]. cbn [calls]. split.
  - now rewrite <- app_assoc.
  - unfold unlink_attempts. cbn [calls].
    rewrite !filter_app, !length_app. cbn [filter]. rewrite eqb_str_refl.
    cbn [List.length]. lia.
Qed.

Lemma read_failure_skips_unlink_eval :
  exists w',
    POST unreadableEnv (Json (Some clipUrl) (Some (lit "clip"))) (mkWorld [] []) =
      Some (inl (ConversionFailed conversionFailed suggestionText
                   (fallbackAdvisory clipUrl (lit "clip.mp4"))
                   clipUrl (lit "clip.mp4")), w').
Proof. eexists. vm_compute. reflexivity. Qed.

(** C1 (the code at the failing input): ffmpeg succeeded and the read of
    its output failed; the handler answers with the failed conversion and
    its advisory, and it has spawned and read but never asked for the
    removal: the temporary file is still on disk. *)
Theorem read_failure_skips_unlink :
  exists w',
    POST unreadableEnv (Json (Some clipUrl) (Some (lit "clip"))) (mkWorld [] []) =
      Some (inl (ConversionFailed conversionFailed suggestionText
                   (fallbackAdvisory clipUrl (lit "clip.mp4"))
                   clipUrl (lit "clip.mp4")), w') /\
    calls w' = [Spawn (lit "ffmpeg") (ffmpegArgs clipUrl clipPath); ReadFile clipPath] /\
    unlink_attempts clipPath w' = 0%nat /\
    exists_file clipPath w' = true.
Proof.
  eexists. split; [vm_compute; reflexivity|]. vm_compute. auto.
Qed.

(** C4 (the code at the failing input): ffmpeg exits with code 1;
    [convertHLSToMP4] throws the message made of the exit code and the
    text gathered from stderr, and the handler answers with the failed
    conversion and its four-entry advisory; but it never asks for the
    removal of the output path, where the partial file stays. *)
Theorem nonzero_exit_leaves_partial_file :
  exists w',
    convertHLSToMP4 failingEnv clipUrl (lit "clip.mp4") (mkWorld [] []) =
      Some (inr (exitPrefix ++ lit "1" ++ [10] ++ lit "Invalid data found"), w') /\
    POST failingEnv (Json (Some clipUrl) (Some (lit "clip"))) (mkWorld [] []) =
      Some (inl (ConversionFailed conversionFailed suggestionText
                   (fallbackAdvisory clipUrl (lit "clip.mp4"))
                   clipUrl (lit "clip.mp4")), w') /\
    List.length (fallbackAdvisory clipUrl (lit "clip.mp4")) = 4%nat /\
    calls w' = [Spawn (lit "ffmpeg") (ffmpegArgs clipUrl clipPath)] /\
    unlink_attempts clipPath w' = 0%nat /\
    exists_file clipPath w' = true.
Proof.
  eexists. split; [vm_compute; reflexivity|]. vm_compute. auto 10.
Qed.

Lemma advisory_is_fixed_witness :
  fallbackAdvisory clipUrl (lit "clip.mp4") =
  fallbackAdvisory clipUrl (deriveFileName (Some (lit "clip"))).
Proof.
  destruct read_failure_skips_unlink_eval as [w' E].
  destruct (advisory_is_fixed clipUrl (lit "x")) as [_ [_ [_ A]]].
  destruct (A _ _ _ _ _ _ _ _ _ E) as [_ [_ R]]. exact R.
Defined.

End RouteFacts.

(* ================================================================== *)
(** ** Joining a file name to a directory *)

Module PathFacts.

Import Path Segments.

Lemma split_slash_cons (s : jsstring) : exists h t, split_slash s = h :: t.
Proof.
  induction s as [|c s [h [t IH]]]; simpl; [eauto|].
  destruct (c =? slash); [eauto|]. rewrite IH. eauto.
Qed.

Lemma split_slash_app (a b : jsstring) :
  split_slash (a ++ slash :: b) = split_slash a ++ split_slash b.
Proof.
  induction a as [|c a IH]; simpl.
  - reflexivity.
  - destruct (c =? slash); rewrite IH; [reflexivity|].
    destruct (split_slash_cons a) as [h [t ->]]. reflexivity.
Qed.

Lemma split_slash_plain (s : jsstring) :
  ~ List.In slash s -> split_slash s = [s].
Proof.
  induction s as [|c s IH]; simpl; intros N; [reflexivity|].
  destruct (c =? slash) eqn:E.
  - apply Z.eqb_eq in E. exfalso. apply N. now left.
  - rewrite IH; [reflexivity|]. intros I. apply N. now right.
Qed.

Lemma last_app_nonempty (a b : jsstring) (d : Z) :
  b <> [] -> last (a ++ b) d = last b d.
Proof.
  intros N. induction a as [|c a IH]; [reflexivity|].
  simpl. destruct (a ++ b) eqn:E; [|exact IH].
  destruct a; [contradiction | discriminate].
Qed.

Lemma eqb_str_true (a b : jsstring) : eqb_str a b = true -> a = b.
Proof. unfold eqb_str. destruct (list_eq_dec Z.eq_dec a b); [auto | discriminate]. Qed.

Lemma step_segments_ok (b : bool) (acc : list jsstring) (seg : jsstring) :
  segments_ok acc -> segments_ok (step b acc seg).
Proof.
  unfold segments_ok, step. intros A.
  destruct (eqb_str seg []) eqn:E0; cbn [orb]; [exact A|].
  assert (N : seg <> []).
  { intros ->. unfold eqb_str in E0.
    destruct (list_eq_dec Z.eq_dec [] []); [discriminate | congruence]. }
  destruct (eqb_str seg (lit ".")); [exact A|].
  destruct (eqb_str seg (lit "..")).
  - destruct acc as [|l rest]; [destruct b; auto|].
    destruct (eqb_str l (lit "..")); [destruct b; auto|].
    now inversion A.
  - auto.
Qed.

Lemma fold_segments_ok (b : bool) (segs acc : list jsstring) :
  segments_ok acc -> segments_ok (fold_left (step b) segs acc).
Proof.
  revert acc. induction segs as [|s segs IH]; intros acc A; simpl; [exact A|].
  apply IH. now apply step_segments_ok.
Qed.

Lemma intercalate_snoc (xs : list jsstring) (s : jsstring) :
  intercalate (xs ++ [s]) =
  match xs with
  | [] => s
  | _ => intercalate xs ++ slash :: s
  end.
Proof.
  induction xs as [|x xs IH]; [reflexivity|].
  cbn [app]. destruct xs as [|y ys].
  - reflexivity.
  - change (intercalate (x :: (y :: ys) ++ [s]))
      with (x ++ slash :: intercalate ((y :: ys) ++ [s])).
    rewrite IH. change (intercalate (x :: y :: ys))
      with (x ++ slash :: intercalate (y :: ys)).
    now rewrite <- app_assoc.
Qed.

Lemma intercalate_nonempty (xs : list jsstring) :
  segments_ok xs -> xs <> [] -> intercalate xs <> [].
Proof.
  intros A N. destruct xs as [|x xs]; [contradiction|].
  inversion A as [|? ? Hx _]; subst.
  destruct xs; simpl; [exact Hx|].
  destruct x; [contradiction | discriminate].
Qed.

Lemma step_plain (b : bool) (acc : list jsstring) (name : jsstring) :
  plain name -> step b acc name = name :: acc.
Proof.
  intros [_ [c [I N]]]. unfold step.
  assert (D : forall l, (forall x, List.In x l -> x = 46) -> eqb_str name l = false).
  { intros l H. destruct (eqb_str name l) eqn:E; [|reflexivity].
    apply eqb_str_true in E. subst. now apply H in I. }
  rewrite (D []), (D (lit ".")), (D (lit "..")); try reflexivity.
  - simpl. codes. intros x [<- | [<- | []]]; reflexivity.
  - simpl. codes. intros x [<- | []]; reflexivity.
  - intros x [].
Qed.

(** Joining a plain name to an absolute directory yields the normalized
    directory, a separator, and the name untouched. *)
Lemma join_plain (dir name : jsstring) :
  starts_with [slash] dir = true ->
  plain name ->
  join dir name = normalize (dir ++ [slash]) ++ name.
Proof.
  intros A P. destruct dir as [|c t]; [discriminate|].
  cbn [starts_with] in A. rewrite andb_true_r in A. apply Z.eqb_eq in A. subst c.
  pose proof P as [NS [c0 [I0 N0]]].
  destruct name as [|n0 name']; [destruct I0|].
  change (join (slash :: t) (n0 :: name'))
    with (normalize ((slash :: t) ++ slash :: n0 :: name')).
  remember (n0 :: name') as name eqn:EN.
  assert (NE : name <> []) by (subst name; discriminate).
  clear EN n0 name' c0 I0 N0.
  unfold normalize. cbn [app]. rewrite Z.eqb_refl. cbn [negb].
  (* trailing separators *)
  assert (L1 : (last (slash :: t ++ slash :: name) 0 =? slash) = false).
  { replace (slash :: t ++ slash :: name) with ((slash :: t ++ [slash]) ++ name)
      by (cbn [app]; now rewrite <- app_assoc).
    rewrite (@last_app_nonempty _ name 0 NE).
    apply Z.eqb_neq. intros E. apply NS. rewrite <- E.
    destruct (exists_last NE) as [l [x ->]]. rewrite last_last.
    apply in_or_app. right. now left. }
  assert (L2 : (last (slash :: t ++ [slash]) 0 =? slash) = true).
  { change (slash :: t ++ [slash]) with ((slash :: t) ++ [slash]).
    rewrite last_last. apply Z.eqb_refl. }
  rewrite L1, L2.
  (* segments *)
  unfold normalizeString.
  change (slash :: t ++ slash :: name) with ((slash :: t) ++ slash :: name).
  change (slash :: t ++ [slash]) with ((slash :: t) ++ slash :: []).
  rewrite !split_slash_app, (@split_slash_plain name NS), !fold_left_app.
  set (acc := fold_left (step false) (split_slash (slash :: t)) []).
  assert (OK : segments_ok (rev acc)).
  { unfold segments_ok. apply Forall_rev. apply fold_segments_ok. constructor. }
  cbn [split_slash fold_left]. rewrite (@step_plain false acc name P).
  change (step false acc []) with acc.
  cbn [rev]. rewrite intercalate_snoc.
  destruct (rev acc) as [|x xs] eqn:R.
  - cbn [intercalate]. destruct name as [|z l]; [contradiction|].
    cbn [app]. now rewrite app_nil_r.
  - pose proof (@intercalate_nonempty (x :: xs) OK ltac:(discriminate)) as NI.
    destruct (intercalate (x :: xs)) as [|i0 body] eqn:B; [contradiction|].
    cbn [app]. rewrite app_nil_r. rewrite <- !app_assoc. reflexivity.
Qed.

End PathFacts.

(* ================================================================== *)
(** ** The commands of the advisory for a URL with double quotes *)

Module CommandFacts.

Import Runner Sys Route Command Scenario.

(** The derived file name, which goes into the same commands, never holds
    a double quote. *)
Lemma derived_name_unquoted (hint : option jsstring) :
  ~ List.In 34 (deriveFileName hint).
Proof.
  intros I. apply FileNaming.deriveFileName_no_delimiter in I. lia.
Qed.

(** C7 (the code at the failing input): the URL goes into both commands as
    it came.  For a URL with a double quote, the quote that follows the
    opening one in the command is the URL's own, so that the text between
    them is only the part of the URL before it; at the URL
    [https://h/a.m3u8?t="x"] the failed conversion lists commands with six
    double quotes each, where the templates have four.  The file name in
    the same commands has its double quotes stripped. *)
Theorem quoted_url_closes_its_argument :
  (forall p s fn : jsstring,
     ytdlpCommand (p ++ 34 :: s) fn =
       lit "yt-dlp " ++ [34] ++ p ++ [34] ++ s ++ [34] ++ lit " -o " ++ [34] ++ fn ++ [34] /\
     ffmpegCommand (p ++ 34 :: s) fn =
       lit "ffmpeg -i " ++ [34] ++ p ++ [34] ++ s ++ [34] ++ lit " -c copy " ++
       [34] ++ fn ++ [34]) /\
  (exists ms w',
     POST failingEnv (Json (Some quotedUrl) (Some (lit "clip"))) (mkWorld [] []) =
       Some (inl (ConversionFailed conversionFailed suggestionText ms
                    quotedUrl (lit "clip.mp4")), w') /\
     map command ms =
       [ Some (lit "yt-dlp " ++ [34] ++ lit "https://h/a.m3u8?t=" ++ [34] ++ lit "x" ++
               [34; 34] ++ lit " -o " ++ [34] ++ lit "clip.mp4" ++ [34]);
         Some (lit "ffmpeg -i " ++ [34] ++ lit "https://h/a.m3u8?t=" ++ [34] ++ lit "x" ++
               [34; 34] ++ lit " -c copy " ++ [34] ++ lit "clip.mp4" ++ [34]);
         None; None ] /\
     map (fun m => option_map (fun c => count_occ Z.eq_dec c 34) (command m)) ms =
       [Some 6%nat; Some 6%nat; None; None]) /\
  (forall hint : option jsstring, ~ List.In 34 (deriveFileName hint)).
Proof.
  split; [|split].
  - intros p s fn. unfold ytdlpCommand, ffmpegCommand, dq.
    rewrite <- !app_assoc. cbn [app]. split; reflexivity.
  - eexists _, _. split; [vm_compute; reflexivity|]. split; vm_compute; reflexivity.
  - apply derived_name_unquoted.
Qed.

End CommandFacts.

(* ================================================================== *)
(** ** The derived name in the response header and in the temporary path *)

Module NameFacts.

Import Sys Route Classes Segments Scenario FileNaming.

Lemma quoted_string_tail_text (x : jsstring) :
  Forall (fun c => qdtext c = true) x -> quoted_string_tail (x ++ [34]) = true.
Proof.
  induction 1 as [|c x Q _ IH]; [reflexivity|].
  cbn [app quoted_string_tail]. rewrite Q, IH.
  unfold qdtext in Q.
  destruct (c =? 34) eqn:E1; [classes; lia|].
  destruct (c =? 92) eqn:E2; [classes; lia|]. reflexivity.
Qed.

Lemma disposition_of_text (fn : jsstring) :
  Forall (fun c => qdtext c = true) fn ->
  disposition_wellformed (contentDisposition fn) = true.
Proof.
  intros Q. unfold disposition_wellformed, contentDisposition, dq.
  apply andb_true_iff. split.
  - apply starts_with_prefix. eauto.
  - rewrite skipn_app, skipn_all, Nat.sub_diag. cbn [app skipn quoted_string].
    rewrite Z.eqb_refl. now apply quoted_string_tail_text.
Qed.

Lemma derived_name_text (hint : option jsstring) :
  (forall c, List.In c (orDefault hint) -> is_space c = true -> header_space c) ->
  Forall (fun c => qdtext c = true) (deriveFileName hint).
Proof.
  intros H. apply Forall_forall. intros c.
  unfold deriveFileName. rewrite in_app_iff, strip_In.
  intros [[I K] | E].
  - specialize (H c I). unfold header_space in H. unfold qdtext.
    destruct (is_space c) eqn:S.
    + specialize (H eq_refl). classes. lia.
    + clear H. classes. lia.
  - simpl in E. codes. destruct E as [<- | [<- | [<- | [<- | []]]]]; reflexivity.
Qed.

(** The token of [crypto.randomUUID()] and the name glued to it. *)
Lemma token_name_plain (uuid fn : jsstring) :
  ~ List.In 47 uuid -> ~ List.In 47 fn ->
  plain (uuid ++ lit "_" ++ fn).
Proof.
  intros U F. split.
  - unfold Path.slash. rewrite !in_app_iff. simpl. codes. intuition lia.
  - exists 95. split; [|lia].
    apply in_or_app. right. now left.
Qed.

(** What the stripping does achieve: the derived name holds no double
    quote, no slash and no backslash; with white space made of spaces,
    TABs and U+00A0 only the header value is one well-formed quoted
    string; and joined to an absolute scratch directory, behind a token
    without a slash, the name is the last component of the path. *)
Lemma derived_name_is_contained (hint : option jsstring) :
  (forall c, List.In c (deriveFileName hint) -> c <> 34 /\ c <> 47 /\ c <> 92) /\
  ((forall c, List.In c (orDefault hint) -> is_space c = true -> header_space c) ->
     disposition_wellformed (contentDisposition (deriveFileName hint)) = true) /\
  (forall env : Env,
     starts_with [47] (tmpdir env) = true ->
     ~ List.In 47 (uuid env) ->
     tempPath env (deriveFileName hint) =
       Path.normalize (tmpdir env ++ [47]) ++
       (uuid env ++ lit "_" ++ deriveFileName hint) /\
     ~ List.In 47 (uuid env ++ lit "_" ++ deriveFileName hint)).
Proof.
  split; [apply deriveFileName_no_delimiter|]. split.
  - intros H. apply disposition_of_text. now apply derived_name_text.
  - intros env A U.
    assert (P : plain (uuid env ++ lit "_" ++ deriveFileName hint)).
    { apply token_name_plain; [exact U|].
      intros I. apply deriveFileName_no_delimiter in I. lia. }
    split; [|apply P].
    unfold tempPath. now apply PathFacts.join_plain.
Qed.

(** C10 (the code at the failing input): the file-name hint [a], line
    feed, [b] keeps its line feed, which [\s] lets through, so that the
    [Content-Disposition] value holds a line feed and is refused when the
    response is built; ffmpeg had succeeded, the output had been read and
    the temporary file removed, and the handler answers with the failed
    conversion and its advisory. *)
Theorem line_feed_in_name_fails_the_response :
  List.In 10 (contentDisposition (deriveFileName (Some twoLines))) /\
  header_value_ok (contentDisposition (deriveFileName (Some twoLines))) = false /\
  exists w',
    POST convertedEnv (Json (Some clipUrl) (Some twoLines)) (mkWorld [] []) =
      Some (inl (ConversionFailed conversionFailed suggestionText
                   (fallbackAdvisory clipUrl (deriveFileName (Some twoLines)))
                   clipUrl (deriveFileName (Some twoLines))), w') /\
    calls w' = [Spawn (lit "ffmpeg") (ffmpegArgs clipUrl twoLinesPath);
                ReadFile twoLinesPath; Unlink twoLinesPath] /\
    exists_file twoLinesPath w' = false.
Proof.
  split; [vm_compute; tauto|]. split; [reflexivity|].
  eexists. split; [vm_compute; reflexivity|]. split; reflexivity.
Qed.

End NameFacts.

(* ================================================================== *)
(** ** The validators *)

Module ValidationFacts.

Import Validation Escaping.

Lemma replace_all_flat_map (c : Z) (rep : jsstring) (f : Z -> jsstring) (s : jsstring) :
  replace_all c rep (flat_map f s) = flat_map (fun x => replace_all c rep (f x)) s.
Proof.
  unfold replace_all. induction s as [|x s IH]; [reflexivity|].
  cbn [flat_map]. now rewrite flat_map_app, IH.
Qed.

(** The six replacements in a row act on one character as [escape] does:
    no entity written by an earlier step is touched by a later one. *)
Lemma replacements_on_char (x : Z) :
  replace_all 47 (lit "&#x2F;")
    (replace_all 39 (lit "&#x27;")
       (replace_all 34 (lit "&quot;")
          (replace_all 62 (lit "&gt;")
             (replace_all 60 (lit "&lt;")
                (if x =? 38 then lit "&amp;" else [x]))))) = escape x.
Proof.
  unfold escape.
  destruct (x =? 38) eqn:E1; [reflexivity|].
  unfold replace_all at 5. cbn [flat_map app].
  destruct (x =? 60) eqn:E2; [reflexivity|].
  unfold replace_all at 4. cbn [flat_map app].
  destruct (x =? 62) eqn:E3; [reflexivity|].
  unfold replace_all at 3. cbn [flat_map app].
  destruct (x =? 34) eqn:E4; [reflexivity|].
  unfold replace_all at 2. cbn [flat_map app].
  destruct (x =? 39) eqn:E5; [reflexivity|].
  unfold replace_all. cbn [flat_map app].
  destruct (x =? 47) eqn:E6; reflexivity.
Qed.

Lemma sanitize_flat_map (input : jsstring) (maxLength : Z) :
  sanitizeString input maxLength = flat_map escape (slice0 input maxLength).
Proof.
  unfold sanitizeString. destruct input as [|c input].
  - unfold slice0. now rewrite firstn_nil.
  - cbn [falsy]. set (t := slice0 (c :: input) maxLength).
    unfold replace_all at 6.
    rewrite !replace_all_flat_map.
    apply flat_map_ext. intros x. apply replacements_on_char.
Qed.

(** X1: [sanitizeString] is one pass over the truncated input: each of the
    six characters becomes its entity, every other one stays; the order of
    the six replacements never escapes an entity twice. *)
Theorem sanitizeString_one_pass (input : jsstring) (maxLength : Z) :
  sanitizeString input maxLength = flat_map escape (slice0 input maxLength) /\
  sanitizeStringDefault input = flat_map escape (firstn 1000 input).
Proof.
  split; [apply sanitize_flat_map|].
  unfold sanitizeStringDefault. rewrite sanitize_flat_map.
  unfold slice0, len. cbn [Z.ltb Z.compare]. f_equal.
  destruct (Z.le_gt_cases 1000 (Z.of_nat (List.length input))) as [L | L].
  - rewrite Z.min_l by exact L. reflexivity.
  - rewrite Z.min_r by lia. rewrite Nat2Z.id.
    rewrite firstn_all. symmetry. apply firstn_all2. lia.
Qed.

Lemma escape_chars (x c : Z) :
  List.In c (escape x) -> c <> 60 /\ c <> 62 /\ c <> 34 /\ c <> 39 /\ c <> 47.
Proof.
  unfold escape.
  destruct (x =? 38) eqn:E1; [|destruct (x =? 60) eqn:E2;
    [|destruct (x =? 62) eqn:E3; [|destruct (x =? 34) eqn:E4;
      [|destruct (x =? 39) eqn:E5; [|destruct (x =? 47) eqn:E6]]]]];
    simpl; codes; intros I;
    repeat (destruct I as [<- | I]; [repeat split; lia|]);
    try destruct I.
  all: apply Z.eqb_neq in E2, E3, E4, E5, E6; repeat split; lia.
Qed.

(** A character is kept as it is, or replaced by an ampersand and the rest
    of an entity, which holds no further ampersand. *)
Lemma escape_shape (x : Z) :
  (escape x = [x] /\ x <> 38) \/
  (exists tail, List.In tail entity_tails /\ escape x = 38 :: tail /\
                ~ List.In 38 tail).
Proof.
  unfold escape, entity_tails.
  destruct (x =? 38) eqn:E1;
    [right; exists (lit "amp;"); split; [simpl; tauto|]; split; [reflexivity|];
     simpl; codes; intuition lia|].
  destruct (x =? 60) eqn:E2;
    [right; exists (lit "lt;"); split; [simpl; tauto|]; split; [reflexivity|];
     simpl; codes; intuition lia|].
  destruct (x =? 62) eqn:E3;
    [right; exists (lit "gt;"); split; [simpl; tauto|]; split; [reflexivity|];
     simpl; codes; intuition lia|].
  destruct (x =? 34) eqn:E4;
    [right; exists (lit "quot;"); split; [simpl; tauto|]; split; [reflexivity|];
     simpl; codes; intuition lia|].
  destruct (x =? 39) eqn:E5;
    [right; exists (lit "#x27;"); split; [simpl; tauto|]; split; [reflexivity|];
     simpl; codes; intuition lia|].
  destruct (x =? 47) eqn:E6;
    [right; exists (lit "#x2F;"); split; [simpl; tauto|]; split; [reflexivity|];
     simpl; codes; intuition lia|].
  left. split; [reflexivity|]. now apply Z.eqb_neq.
Qed.

Lemma split_past (t a b r : jsstring) (c : Z) :
  a ++ c :: b = t ++ r -> ~ List.In c t ->
  exists a', a = t ++ a' /\ a' ++ c :: b = r.
Proof.
  revert a. induction t as [|x t IH]; intros a E N.
  - now exists a.
  - destruct a as [|y a].
    + injection E as -> _. exfalso. apply N. now left.
    + injection E as -> E. destruct (IH a E) as [a' [-> R]].
      * intros I. apply N. now right.
      * now exists a'.
Qed.

Lemma ampersand_opens_entity (t pre post : jsstring) :
  flat_map escape t = pre ++ 38 :: post ->
  exists tail rest, List.In tail entity_tails /\ post = tail ++ rest.
Proof.
  revert pre. induction t as [|x t IH]; intros pre E.
  - destruct pre; discriminate.
  - cbn [flat_map] in E.
    destruct (escape_shape x) as [[S N] | [tail [I [S N]]]]; rewrite S in E.
    + destruct pre as [|y pre]; cbn [app] in E.
      * injection E as E _. congruence.
      * injection E as _ E. now apply (IH pre).
    + destruct pre as [|y pre]; cbn [app] in E.
      * injection E as E. exists tail, (flat_map escape t). auto.
      * injection E as _ E. symmetry in E.
        destruct (@split_past tail pre post (flat_map escape t) 38 E N) as [a' [_ R]].
        symmetry in R. now apply (IH a').
Qed.

(** X2: the text returned by [sanitizeString] holds none of [<], [>],
    double quote, quote and slash, and each of its ampersands opens one of
    the six entities. *)
Theorem sanitizeString_output_is_escaped (input : jsstring) (maxLength : Z) :
  (forall c, List.In c (sanitizeString input maxLength) ->
     c <> 60 /\ c <> 62 /\ c <> 34 /\ c <> 39 /\ c <> 47) /\
  (forall pre post, sanitizeString input maxLength = pre ++ 38 :: post ->
     exists tail rest, List.In tail entity_tails /\ post = tail ++ rest).
Proof.
  rewrite sanitize_flat_map. split.
  - intros c I. apply in_flat_map in I. destruct I as [x [_ I]].
    now apply escape_chars in I.
  - intros pre post E. exact (@ampersand_opens_entity _ pre post E).
Qed.

Lemma sanitizeString_output_is_escaped_witness :
  (97 <> 60 /\ 97 <> 62 /\ 97 <> 34 /\ 97 <> 39 /\ 97 <> 47) /\
  exists tail rest,
    List.In tail entity_tails /\ lit "lt;b" = tail ++ rest.
Proof.
  split.
  - apply (proj1 (sanitizeString_output_is_escaped (lit "a<b") 50) 97).
    vm_compute. tauto.
  - apply (proj2 (sanitizeString_output_is_escaped (lit "a<b") 50)
             (lit "a") (lit "lt;b")).
    reflexivity.
Defined.

Lemma escape_length (x : Z) :
  (1 <= List.length (escape x) <= 6)%nat.
Proof.
  unfold escape.
  repeat match goal with
         | |- context [if ?b then _ else _] => destruct b
         end; simpl; lia.
Qed.

Lemma flat_map_escape_length (t : jsstring) :
  (List.length t <= List.length (flat_map escape t) <= 6 * List.length t)%nat.
Proof.
  induction t as [|x t IH]; [simpl; lia|].
  cbn [flat_map]. rewrite length_app. cbn [List.length].
  pose proof (escape_length x). lia.
Qed.

Lemma slice0_length (s : jsstring) (n : Z) :
  0 <= n -> len (slice0 s n) = Z.min n (len s).
Proof.
  intros N. unfold slice0, len.
  replace (n <? 0) with false by (symmetry; apply Z.ltb_ge; lia).
  rewrite length_firstn. lia.
Qed.

(** X3: the limit applies before the escaping.  For a limit that is not
    negative the result is at least as long as the truncated input and at
    most six times the limit; a run of double quotes as long as the limit
    comes back six times as long. *)
Theorem sanitizeString_length (input : jsstring) (maxLength : Z) :
  0 <= maxLength ->
  Z.min maxLength (len input) <= len (sanitizeString input maxLength) <= 6 * maxLength /\
  (0 < maxLength ->
   len (sanitizeString (repeat 34 (Z.to_nat maxLength)) maxLength) = 6 * maxLength).
Proof.
  intros N. rewrite !sanitize_flat_map. split.
  - pose proof (flat_map_escape_length (slice0 input maxLength)) as L.
    pose proof (slice0_length input N) as S. unfold len in *. lia.
  - intros P.
    assert (S : slice0 (repeat 34 (Z.to_nat maxLength)) maxLength =
                repeat 34 (Z.to_nat maxLength)).
    { unfold slice0, len. rewrite repeat_length.
      replace (maxLength <? 0) with false by (symmetry; apply Z.ltb_ge; lia).
      rewrite Z2Nat.id, Z.min_id by lia.
      apply firstn_all2. rewrite repeat_length. lia. }
    rewrite S. unfold len.
    assert (R : forall k, List.length (flat_map escape (repeat 34 k)) = (6 * k)%nat).
    { induction k as [|k IH]; [reflexivity|].
      cbn [repeat flat_map]. rewrite length_app, IH. simpl. lia. }
    rewrite R. lia.
Qed.

Lemma sanitizeString_length_witness :
  Z.min 50 (len (lit "a<b")) <= len (sanitizeString (lit "a<b") 50) <= 6 * 50 /\
  len (sanitizeString (repeat 34 (Z.to_nat 50)) 50) = 6 * 50.
Proof.
  destruct (@sanitizeString_length (lit "a<b") 50 ltac:(lia)) as [B T].
  split; [exact B | apply T; lia].
Defined.

Lemma escape_plain (t : jsstring) :
  (forall c, List.In c t -> special c = false) -> flat_map escape t = t.
Proof.
  induction t as [|x t IH]; intros Ht; [reflexivity|].
  cbn [flat_map]. rewrite IH by (intros c I; apply Ht; now right).
  specialize (Ht x (or_introl eq_refl)). unfold special in Ht. unfold escape.
  repeat (apply orb_false_iff in Ht; destruct Ht as [Ht ?]).
  repeat match goal with E : (_ =? _) = false |- _ => rewrite E; clear E end.
  reflexivity.
Qed.

Lemma slice0_incl (s : jsstring) (n c : Z) :
  List.In c (slice0 s n) -> List.In c s.
Proof.
  unfold slice0. intros I.
  match type of I with
  | List.In _ (firstn ?k _) => rewrite <- (firstn_skipn k s)
  end.
  apply in_or_app. now left.
Qed.

Lemma slice0_fits (s : jsstring) (n : Z) : len s <= n -> slice0 s n = s.
Proof.
  intros L. unfold slice0.
  pose proof (Zle_0_nat (List.length s)) as Z0. unfold len in *.
  replace (n <? 0) with false by (symmetry; apply Z.ltb_ge; lia).
  apply firstn_all2. lia.
Qed.

(** X4: an input free of the six characters is only truncated, and left
    as it is when it fits the limit. *)
Theorem sanitizeString_plain (input : jsstring) (maxLength : Z) :
  (forall c, List.In c input -> special c = false) ->
  sanitizeString input maxLength = slice0 input maxLength /\
  (len input <= maxLength -> sanitizeString input maxLength = input).
Proof.
  intros H. rewrite sanitize_flat_map. split.
  - apply escape_plain. intros c I. apply H.
    exact (@slice0_incl input maxLength c I).
  - intros L. rewrite (@slice0_fits input maxLength L).
    now apply escape_plain.
Qed.

Lemma sanitizeString_plain_witness :
  sanitizeString (lit "douban") 50 = lit "douban".
Proof.
  apply (proj2 (@sanitizeString_plain (lit "douban") 50
                  ltac:(intros c I; vm_compute in I;
                        repeat (destruct I as [<- | I]; [reflexivity|]);
                        destruct I))).
  vm_compute. discriminate.
Defined.

Lemma username_char_plain (c : Z) :
  is_username_char c = true -> special c = false /\ kept c = true.
Proof.
  unfold is_username_char, special. intros H. split; classes; lia.
Qed.

(** X5: [validateUsername] accepts exactly the names of 3 to 20 code units
    made of ASCII letters, digits, underscores and hyphens; an accepted
    name is left as it is by [sanitizeString] and by the stripping of the
    download handler. *)
Theorem validateUsername_accepts (u : jsstring) :
  (valid (validateUsername u) = true <->
     3 <= len u <= 20 /\ forall c, List.In c u -> is_username_char c = true) /\
  (valid (validateUsername u) = true ->
     sanitizeStringDefault u = u /\ strip u = u).
Proof.
  assert (A : valid (validateUsername u) = true <->
              3 <= len u <= 20 /\ forall c, List.In c u -> is_username_char c = true).
  { unfold validateUsername, usernameRegex, len.
    destruct u as [|c u]; cbn [falsy valid].
    - split; [discriminate | simpl; lia].
    - rewrite Z.gtb_ltb.
      destruct (Z.of_nat (List.length (c :: u)) <? 3) eqn:L1;
        [apply Z.ltb_lt in L1; cbn [orb valid]; split; [discriminate | lia]|].
      destruct (20 <? Z.of_nat (List.length (c :: u))) eqn:L2;
        [apply Z.ltb_lt in L2; cbn [orb valid]; split; [discriminate | lia]|].
      apply Z.ltb_ge in L1, L2. cbn [orb].
      destruct (forallb is_username_char (c :: u)) eqn:R; cbn [negb valid].
      + split; [intros _|reflexivity]. split; [lia|].
        now apply forallb_forall.
      + split; [discriminate|]. intros [_ H].
        apply forallb_forall in H. congruence. }
  split; [exact A|].
  intros V. apply A in V. destruct V as [L H]. split.
  - unfold sanitizeStringDefault.
    rewrite sanitize_flat_map, (@slice0_fits u 1000) by lia.
    apply escape_plain. intros c I. now apply username_char_plain, H.
  - unfold strip. apply forallb_filter_id. apply forallb_forall.
    intros c I. now apply username_char_plain, H.
Qed.

Lemma validateUsername_accepts_witness :
  valid (validateUsername (lit "moon_tv-01")) = true /\
  sanitizeStringDefault (lit "moon_tv-01") = lit "moon_tv-01".
Proof.
  assert (V : valid (validateUsername (lit "moon_tv-01")) = true).
  { apply (proj1 (validateUsername_accepts (lit "moon_tv-01"))).
    split; [vm_compute; split; discriminate|].
    intros c I. vm_compute in I.
    repeat (destruct I as [<- | I]; [reflexivity|]). destruct I. }
  split; [exact V|].
  apply (proj2 (validateUsername_accepts (lit "moon_tv-01")) V).
Defined.

(** X6: every validator reports an error message exactly when it rejects,
    and a rejected pagination carries neither page nor limit. *)
Theorem validators_report_errors (s : jsstring) (pageArg limitArg : option jsstring) :
  Forall (fun r => valid r = true <-> error r = None)
    [validateUsername s; validatePassword s; validateSearchQuery s;
     validateVideoId s] /\
  (p_valid (validatePagination pageArg limitArg) = true <->
     p_error (validatePagination pageArg limitArg) = None) /\
  (p_valid (validatePagination pageArg limitArg) = false ->
     page (validatePagination pageArg limitArg) = None /\
     limit (validatePagination pageArg limitArg) = None).
Proof.
  split; [|split].
  - unfold validateUsername, validatePassword, validateSearchQuery, validateVideoId.
    repeat apply Forall_cons; try apply Forall_nil;
      repeat match goal with
             | |- context [if ?b then _ else _] => destruct b
             end; cbn [valid error]; split; congruence.
  - unfold validatePagination.
    repeat match goal with
           | |- context [if ?b && ?c then _ else _] => destruct (b && c)
           end; cbn [p_valid p_error]; split; congruence.
  - unfold validatePagination.
    repeat match goal with
           | |- context [if ?b && ?c then _ else _] => destruct (b && c)
           end; cbn [p_valid page limit]; intros; (split; congruence) || discriminate.
Qed.

Lemma validators_report_errors_witness :
  page (validatePagination (Some (lit "0")) None) = None /\
  limit (validatePagination (Some (lit "0")) None) = None.
Proof.
  apply (proj2 (proj2 (validators_report_errors [] (Some (lit "0")) None))).
  reflexivity.
Defined.

Lemma starts_with_ci_prefix (p s : jsstring) :
  starts_with_ci p s = true <->
  exists mid post, s = mid ++ post /\ map fold_case mid = map fold_case p.
Proof.
  revert s. induction p as [|a p IH]; intros s.
  - simpl. split; [intros _; now exists [], s | reflexivity].
  - destruct s as [|b s]; cbn [starts_with_ci].
    + split; [discriminate|].
      intros [mid [post [E M]]]. destruct mid; discriminate.
    + rewrite andb_true_iff, Z.eqb_eq, IH. split.
      * intros [F [mid [post [-> M]]]]. exists (b :: mid), post.
        split; [reflexivity|]. cbn [map]. now rewrite M, F.
      * intros [mid [post [E M]]]. destruct mid as [|m mid]; [discriminate|].
        injection E as -> ->. injection M as F M.
        split; [now symmetry|]. now exists mid, post.
Qed.

Lemma occurs_ci_suffix (needle s : jsstring) :
  occurs_ci needle s <->
  exists pre suf, s = pre ++ suf /\ starts_with_ci needle suf = true.
Proof.
  unfold occurs_ci. split.
  - intros [pre [mid [post [-> M]]]]. exists pre, (mid ++ post).
    split; [reflexivity|]. apply starts_with_ci_prefix. now exists mid, post.
  - intros [pre [suf [-> S]]]. apply starts_with_ci_prefix in S.
    destruct S as [mid [post [-> M]]]. now exists pre, mid, post.
Qed.

Lemma word_plus_eq_run (s : jsstring) :
  word_plus_eq s = true <->
  exists w post, s = w ++ 61 :: post /\ w <> [] /\
                 Forall (fun c => is_word c = true) w.
Proof.
  induction s as [|c r IH]; cbn [word_plus_eq].
  - split; [discriminate|]. intros [w [post [E _]]]. destruct w; discriminate.
  - rewrite andb_true_iff, orb_true_iff, IH, starts_with_prefix. split.
    + intros [W [[post ->] | [w [post [-> [N F]]]]]].
      * exists [c], post. repeat split; [discriminate | now constructor].
      * exists (c :: w), post. repeat split; [discriminate | now constructor].
    + intros [w [post [E [N F]]]]. destruct w as [|x w]; [contradiction|].
      injection E as -> ->. inversion F as [|? ? Hx Hw]; subst.
      split; [exact Hx|]. destruct w as [|y w].
      * left. now exists post.
      * right. exists (y :: w), post. repeat split; [discriminate | exact Hw].
Qed.

Lemma handler_at_shape (s : jsstring) :
  handler_at s = true <->
  exists o n w post,
    s = o :: n :: w ++ 61 :: post /\ fold_case o = 79 /\ fold_case n = 78 /\
    w <> [] /\ Forall (fun c => is_word c = true) w.
Proof.
  unfold handler_at. rewrite andb_true_iff.
  destruct s as [|o [|n r]].
  - split; [intros [H _]; discriminate H|].
    intros [o [n [w [post [E _]]]]]. discriminate E.
  - split; [intros [H _]; simpl in H; rewrite andb_false_r in H; discriminate H|].
    intros [o' [n [w [post [E _]]]]]. discriminate E.
  - cbn [skipn]. rewrite word_plus_eq_run.
    change (starts_with_ci (lit "on") (o :: n :: r))
      with ((79 =? fold_case o) && ((78 =? fold_case n) && true)).
    rewrite andb_true_r, andb_true_iff, !Z.eqb_eq. split.
    + intros [[O N] [w [post [-> [W F]]]]]. exists o, n, w, post. auto.
    + intros [o' [n' [w [post [E [O [N [W F]]]]]]]].
      injection E as -> -> ->. split; [auto|]. now exists w, post.
Qed.

Lemma dangerousChars_somewhere (s : jsstring) :
  dangerousChars s = true <->
  exists pre suf, s = pre ++ suf /\ dangerous_at suf = true.
Proof.
  induction s as [|a s IH]; cbn [dangerousChars].
  - rewrite orb_false_r. split.
    + intros H. now exists [], [].
    + intros [pre [suf [E H]]]. destruct pre; [|discriminate].
      simpl in E. now subst suf.
  - rewrite orb_true_iff, IH. split.
    + intros [H | [pre [suf [-> H]]]].
      * now exists [], (a :: s).
      * now exists (a :: pre), suf.
    + intros [pre [suf [E H]]]. destruct pre as [|b pre].
      * left. simpl in E. now subst suf.
      * right. injection E as -> ->. now exists pre, suf.
Qed.

Lemma dangerousChars_occurrence (q : jsstring) :
  dangerousChars q = true <->
  occurs_ci (lit "<script") q \/ occurs_ci (lit "javascript:") q \/
  occurs_ci (lit "data:") q \/ occurs_ci (lit "vbscript:") q \/
  handler_occurs q.
Proof.
  rewrite dangerousChars_somewhere, !occurs_ci_suffix. unfold handler_occurs.
  split.
  - intros [pre [suf [-> D]]]. unfold dangerous_at in D.
    rewrite !orb_true_iff in D.
    destruct D as [[[[D | D] | D] | D] | D].
    + left. now exists pre, suf.
    + right; left. now exists pre, suf.
    + right; right; left. now exists pre, suf.
    + right; right; right; left. now exists pre, suf.
    + right; right; right; right. apply handler_at_shape in D.
      destruct D as [o [n [w [post [-> R]]]]]. now exists pre, o, n, w, post.
  - intros [H | [H | [H | [H | H]]]].
    1-4: destruct H as [pre [suf [-> S]]]; exists pre, suf;
      (split; [reflexivity|]); unfold dangerous_at; rewrite S;
      rewrite ?orb_true_r; reflexivity.
    destruct H as [pre [o [n [w [post [-> R]]]]]].
    exists pre, (o :: n :: w ++ 61 :: post). split; [reflexivity|].
    unfold dangerous_at. rewrite !orb_true_iff. right.
    apply handler_at_shape. now exists o, n, w, post.
Qed.

(** X7: [validateSearchQuery] accepts exactly the queries of 1 to 100 code
    units in which, whatever the case of the letters, none of [<script],
    [javascript:], [data:] and [vbscript:] occurs, nor [on] followed by
    word characters and an equals sign. *)
Theorem validateSearchQuery_accepts (q : jsstring) :
  valid (validateSearchQuery q) = true <->
  1 <= len q <= 100 /\
  ~ occurs_ci (lit "<script") q /\ ~ occurs_ci (lit "javascript:") q /\
  ~ occurs_ci (lit "data:") q /\ ~ occurs_ci (lit "vbscript:") q /\
  ~ handler_occurs q.
Proof.
  unfold validateSearchQuery, len.
  destruct q as [|c q]; cbn [falsy valid].
  - split; [discriminate | simpl; lia].
  - rewrite Z.gtb_ltb.
    destruct (100 <? Z.of_nat (List.length (c :: q))) eqn:L;
      [apply Z.ltb_lt in L; cbn [valid]; split; [discriminate | lia]|].
    apply Z.ltb_ge in L.
    pose proof (dangerousChars_occurrence (c :: q)) as D.
    destruct (dangerousChars (c :: q)); cbn [valid].
    + split; [discriminate|]. intros [_ N].
      destruct (proj1 D eq_refl) as [H | [H | [H | [H | H]]]]; tauto.
    + split; [intros _|reflexivity].
      split; [cbn [List.length] in *; lia|].
      repeat split; intros H;
        assert (F : false = true) by (apply D; tauto); discriminate F.
Qed.

Lemma validateSearchQuery_accepts_witness :
  ~ occurs_ci (lit "<script") (lit "one piece = 1") /\
  ~ handler_occurs (lit "one piece = 1").
Proof.
  destruct (proj1 (validateSearchQuery_accepts (lit "one piece = 1")))
    as [_ [H1 [_ [_ [_ H5]]]]]; [reflexivity|].
  split; assumption.
Defined.

Lemma in_range (n : Number) (hi : Z) :
  (isNaN n || num_lt n 1 || num_gt n hi) = false ->
  exists v, n = Some v /\ 1 <= v <= hi.
Proof.
  destruct n as [v|]; [|discriminate]. cbn [isNaN num_lt num_gt orb].
  rewrite Z.gtb_ltb. intros H. apply orb_false_iff in H.
  destruct H as [H1 H2]. apply Z.ltb_ge in H1, H2. exists v. split; [reflexivity | lia].
Qed.

(** X8: an accepted pagination always carries both numbers, never [NaN],
    the page between 1 and 10000 and the limit between 1 and 100; an
    absent or empty argument gives page 1, respectively limit 20. *)
Theorem validatePagination_bounds (pageArg limitArg : option jsstring) :
  p_valid (validatePagination pageArg limitArg) = true ->
  exists n m,
    page (validatePagination pageArg limitArg) = Some (Some n) /\
    limit (validatePagination pageArg limitArg) = Some (Some m) /\
    1 <= n <= 10000 /\ 1 <= m <= 100 /\
    (truthy pageArg = false -> n = 1) /\
    (truthy limitArg = false -> m = 20).
Proof.
  unfold validatePagination.
  destruct (truthy pageArg) eqn:TP; cbn [andb].
  - destruct (isNaN (parseInt10 (text pageArg)) || num_lt (parseInt10 (text pageArg)) 1
              || num_gt (parseInt10 (text pageArg)) 10000) eqn:RP;
      [discriminate|].
    destruct (in_range _ _ RP) as [n [-> Bn]].
    destruct (truthy limitArg) eqn:TL; cbn [andb].
    + destruct (isNaN (parseInt10 (text limitArg)) || num_lt (parseInt10 (text limitArg)) 1
                || num_gt (parseInt10 (text limitArg)) 100) eqn:RL;
        [discriminate|].
      destruct (in_range _ _ RL) as [m [-> Bm]].
      intros _. exists n, m. cbn [page limit]. repeat split; try lia; discriminate.
    + intros _. exists n, 20. cbn [page limit]. repeat split; try lia; discriminate.
  - destruct (truthy limitArg) eqn:TL; cbn [andb].
    + destruct (isNaN (parseInt10 (text limitArg)) || num_lt (parseInt10 (text limitArg)) 1
                || num_gt (parseInt10 (text limitArg)) 100) eqn:RL;
        [discriminate|].
      destruct (in_range _ _ RL) as [m [-> Bm]].
      intros _. exists 1, m. cbn [page limit]. repeat split; try lia; discriminate.
    + intros _. exists 1, 20. cbn [page limit]. repeat split; lia.
Qed.

Lemma validatePagination_bounds_witness :
  exists n m,
    page (validatePagination (Some (lit "3")) (Some [])) = Some (Some n) /\
    limit (validatePagination (Some (lit "3")) (Some [])) = Some (Some m) /\
    1 <= n <= 10000 /\ 1 <= m <= 100 /\
    (truthy (Some (lit "3")) = false -> n = 1) /\
    (truthy (Some []) = false -> m = 20).
Proof.
  apply (@validatePagination_bounds (Some (lit "3")) (Some [])). reflexivity.
Defined.

Lemma digit_not_space (c : Z) :
  is_dec_digit c = true -> is_space c = false /\ c <> 45 /\ c <> 43.
Proof.
  unfold is_dec_digit. intros D.
  destruct (is_space c) eqn:S; split; try reflexivity; classes; lia.
Qed.

Lemma skip_space_app (ws r : jsstring) :
  Forall (fun c => is_space c = true) ws -> skip_space (ws ++ r) = skip_space r.
Proof.
  induction 1 as [|c ws S _ IH]; [reflexivity|].
  cbn [app skip_space]. now rewrite S.
Qed.

Lemma digits_prefix_app (d t : jsstring) (acc : Z) :
  Forall (fun c => is_dec_digit c = true) d -> no_digit_ahead t ->
  digits_prefix acc (d ++ t) = digits_prefix acc d.
Proof.
  intros D T. revert acc. induction D as [|c d C _ IH]; intros acc.
  - simpl. destruct t as [|c t]; [reflexivity|]. simpl in *. now rewrite T.
  - cbn [app digits_prefix]. rewrite C. apply IH.
Qed.

Lemma parseInt10_leading_digits (ws d t : jsstring) :
  Forall (fun c => is_space c = true) ws -> all_digits d -> no_digit_ahead t ->
  parseInt10 (ws ++ d ++ t) = Some (digits_prefix 0 d).
Proof.
  intros W [N D] T. unfold parseInt10. rewrite (skip_space_app _ W).
  destruct d as [|c d]; [contradiction|].
  inversion D as [|? ? C D']; subst.
  destruct (digit_not_space _ C) as [S [M P]].
  cbn [app skip_space]. rewrite S.
  apply Z.eqb_neq in M, P. rewrite M, P, C.
  change (c :: d ++ t) with ((c :: d) ++ t).
  rewrite (digits_prefix_app _ 0 D T).
  f_equal. lia.
Qed.

(** X9: [parseInt] reads the leading digits only: white space before a
    run of digits and anything after it that does not go on with a digit
    leave the outcome of [validatePagination] as it is for the digits
    alone, in the page as in the limit. *)
Theorem validatePagination_reads_leading_digits
  (ws d t : jsstring) (other : option jsstring) :
  Forall (fun c => is_space c = true) ws -> all_digits d -> no_digit_ahead t ->
  validatePagination (Some (ws ++ d ++ t)) other = validatePagination (Some d) other /\
  validatePagination other (Some (ws ++ d ++ t)) = validatePagination other (Some d).
Proof.
  intros W D T.
  assert (P : parseInt10 (ws ++ d ++ t) = parseInt10 d).
  { rewrite (@parseInt10_leading_digits ws d t W D T).
    pose proof (@parseInt10_leading_digits [] d [] (Forall_nil _) D I) as E.
    cbn [app] in E. rewrite app_nil_r in E. now rewrite E. }
  assert (Y : truthy (Some (ws ++ d ++ t)) = true /\ truthy (Some d) = true).
  { destruct D as [N _]. destruct d; [contradiction|].
    split; [|reflexivity]. destruct ws; reflexivity. }
  destruct Y as [Y1 Y2].
  unfold validatePagination. cbn [text]. rewrite Y1, Y2, P. split; reflexivity.
Qed.

Lemma validatePagination_reads_leading_digits_witness :
  validatePagination (Some (lit " " ++ lit "12" ++ lit "abc")) None =
  validatePagination (Some (lit "12")) None.
Proof.
  apply (@validatePagination_reads_leading_digits (lit " ") (lit "12") (lit "abc") None).
  - repeat constructor.
  - split; [discriminate | repeat constructor].
  - reflexivity.
Defined.

End ValidationFacts.

(* ================================================================== *)
(** ** The detail and search handlers *)

Module CatalogFacts.

Import Validation Escaping Catalog ValidationFacts.

Section Handlers.

Variable Site : Type.
Variable key : Site -> jsstring.
Variable Detail : Type.
Variable Item : Type.

Abbreviation Env := (Env Site Detail Item).
Abbreviation Response := (Response Detail Item).
Abbreviation call := (call Site).
Abbreviation detailGET := (@detailGET Site key Detail Item).
Abbreviation searchGET := (@searchGET Site Detail Item).

(** The outcomes of the detail handler, one for each way through it. *)
Lemma detailGET_cases (env : Env) (id sourceCode : option jsstring) (l : list call) :
  detailGET env id sourceCode l =
  if negb (truthy id) || negb (truthy sourceCode)
  then (inl (ErrorJson Detail Item 400 (Some missingParams)), l)
  else if len (text id) >? 200
  then (inl (ErrorJson Detail Item 400 (Some videoIdLength)), l)
  else
    match apiSites env with
    | inr m => (inl (ErrorJson Detail Item 500 (Some m)), l ++ [GetSites Site])
    | inl sites =>
        match find (fun site => eqb_str (key site) (sanitizeString (text sourceCode) 50))
                   sites with
        | None =>
            (inl (ErrorJson Detail Item 400 (Some invalidSource)), l ++ [GetSites Site])
        | Some site =>
            match detailOf env site (text id) with
            | inr m =>
                (inl (ErrorJson Detail Item 500 (Some m)),
                 (l ++ [GetSites Site]) ++ [GetDetail site (text id)])
            | inl result =>
                match cacheTime env with
                | inr m =>
                    (inl (ErrorJson Detail Item 500 (Some m)),
                     ((l ++ [GetSites Site]) ++ [GetDetail site (text id)])
                     ++ [GetCacheTime Site])
                | inl t =>
                    (inl (DetailJson Item result (cacheControlOf t)),
                     ((l ++ [GetSites Site]) ++ [GetDetail site (text id)])
                     ++ [GetCacheTime Site])
                end
            end
        end
    end.
Proof.
  unfold Catalog.detailGET.
  destruct (negb (truthy id) || negb (truthy sourceCode)) eqn:P; [reflexivity|].
  apply orb_false_iff in P. destruct P as [P _]. apply negb_false_iff in P.
  destruct id as [[|c i]|]; try discriminate P.
  unfold validateVideoId. cbn [text falsy].
  destruct (len (c :: i) >? 200); cbn [valid negb error]; [reflexivity|].
  unfold try_catch, bind, getAvailableApiSites, getDetailFromApi, getCacheTime,
    request, ret.
  destruct (apiSites env) as [sites | m]; [|reflexivity].
  destruct (find _ sites) as [site|]; [|reflexivity].
  destruct (detailOf env site (c :: i)) as [result | m]; [|reflexivity].
  destruct (cacheTime env) as [t | m]; reflexivity.
Qed.

Lemma sanitize_no_delimiter (input : jsstring) (maxLength c : Z) :
  List.In c (sanitizeString input maxLength) ->
  c <> 60 /\ c <> 62 /\ c <> 34 /\ c <> 39 /\ c <> 47.
Proof.
  rewrite sanitize_flat_map. intros I. apply in_flat_map in I.
  destruct I as [x [_ I]]. now apply escape_chars in I.
Qed.

Lemma detail_call_inv (env : Env) (id sourceCode : option jsstring)
  (resp : Response + jsstring) (l' : list call) (site : Site) (i : jsstring) :
  detailGET env id sourceCode [] = (resp, l') ->
  List.In (GetDetail site i) l' ->
  id = Some i /\ 1 <= len i <= 200 /\
  key site = sanitizeString (text sourceCode) 50 /\
  exists sites,
    apiSites env = inl sites /\
    find (fun x => eqb_str (key x) (sanitizeString (text sourceCode) 50)) sites
      = Some site.
Proof.
  rewrite detailGET_cases.
  destruct (negb (truthy id) || negb (truthy sourceCode)) eqn:P;
    [intros E; injection E as _ <-; intros []|].
  apply orb_false_iff in P. destruct P as [P _]. apply negb_false_iff in P.
  destruct id as [[|c0 i0]|]; try discriminate P. cbn [text].
  rewrite Z.gtb_ltb.
  destruct (200 <? len (c0 :: i0)) eqn:L;
    [intros E; injection E as _ <-; intros []|].
  apply Z.ltb_ge in L.
  assert (L1 : 1 <= len (c0 :: i0)) by (unfold len; cbn [List.length]; lia).
  intros E I.
  assert (G : forall sites s,
             apiSites env = inl sites ->
             find (fun x => eqb_str (key x) (sanitizeString (text sourceCode) 50)) sites
               = Some s ->
             GetDetail s (c0 :: i0) = GetDetail site i ->
             Some (c0 :: i0) = Some i /\ 1 <= len i <= 200 /\
             key site = sanitizeString (text sourceCode) 50 /\
             exists sites0,
               apiSites env = inl sites0 /\
               find (fun x => eqb_str (key x) (sanitizeString (text sourceCode) 50))
                    sites0 = Some site).
  { intros sites s A F Q. injection Q as -> <-.
    split; [reflexivity|]. split; [lia|]. split.
    - apply find_some in F. destruct F as [_ F]. now apply PathFacts.eqb_str_true.
    - now exists sites. }
  destruct (apiSites env) as [sites | m] eqn:A.
  - destruct (find _ sites) as [s|] eqn:F.
    + destruct (detailOf env s (c0 :: i0)) as [r | m].
      * destruct (cacheTime env) as [t | m]; injection E as _ <-;
          cbn [app] in I; destruct I as [I | [I | [I | []]]];
          try discriminate I; exact (G sites s eq_refl F I).
      * injection E as _ <-. cbn [app] in I. destruct I as [I | [I | []]];
          try discriminate I. exact (G sites s eq_refl F I).
    + injection E as _ <-. cbn [app] in I. destruct I as [I | []]. discriminate I.
  - injection E as _ <-. cbn [app] in I. destruct I as [I | []]. discriminate I.
Qed.

(** A detail is asked for only when the source parameter is present and
    not empty. *)
Lemma detail_call_source (env : Env) (id sourceCode : option jsstring)
  (resp : Response + jsstring) (l' : list call) (site : Site) (i : jsstring) :
  detailGET env id sourceCode [] = (resp, l') ->
  List.In (GetDetail site i) l' ->
  exists src, sourceCode = Some src /\ src <> [].
Proof.
  rewrite detailGET_cases.
  destruct (negb (truthy id) || negb (truthy sourceCode)) eqn:P;
    [intros E; injection E as _ <-; intros []|].
  intros _ _. apply orb_false_iff in P. destruct P as [_ P].
  apply negb_false_iff in P.
  destruct sourceCode as [[|c src]|]; try discriminate P.
  exists (c :: src). split; [reflexivity | discriminate].
Qed.

(** X10: the detail handler asks a site for a detail only when both
    parameters are present and not empty and the id is at most 200 code
    units long; the site asked is the first configured one whose key
    equals the source parameter as [sanitizeString] returns it with the
    limit 50, and the id is passed on as it came. *)
Theorem detail_asks_matching_site (env : Env) (id sourceCode : option jsstring)
  (resp : Response + jsstring) (l' : list call) (site : Site) (i : jsstring) :
  detailGET env id sourceCode [] = (resp, l') ->
  List.In (GetDetail site i) l' ->
  id = Some i /\ 1 <= len i <= 200 /\
  (exists src, sourceCode = Some src /\ src <> []) /\
  key site = sanitizeString (text sourceCode) 50 /\
  exists before after,
    apiSites env = inl (before ++ site :: after) /\
    forall s, List.In s before -> key s <> sanitizeString (text sourceCode) 50.
Proof.
  intros E I.
  destruct (@detail_call_inv env id sourceCode resp l' site i E I)
    as [Hi [Hl [Hk [sites [A F]]]]].
  split; [exact Hi|]. split; [exact Hl|].
  split; [exact (@detail_call_source env id sourceCode resp l' site i E I)|].
  split; [exact Hk|].
  rewrite A. clear -F.
  induction sites as [|x sites IH]; [discriminate F|].
  cbn [find] in F.
  destruct (eqb_str (key x) (sanitizeString (text sourceCode) 50)) eqn:Q.
  - injection F as ->. exists [], sites. split; [reflexivity|]. intros s [].
  - destruct (IH F) as [before [after [S B]]].
    exists (x :: before), after. split.
    + injection S as ->. reflexivity.
    + intros s [<- | J]; [|now apply B].
      intros K. rewrite K, RouteFacts.eqb_str_refl in Q. discriminate Q.
Qed.

(** X11: a site whose key holds [<], [>], a double quote, a quote or a
    slash is never asked for a detail, whatever the request: the source
    parameter is escaped before it is compared with the keys. *)
Theorem detail_never_asks_unescaped_key (env : Env) (id sourceCode : option jsstring)
  (resp : Response + jsstring) (l' : list call) (site : Site) (i : jsstring) (c : Z) :
  List.In c (key site) ->
  c = 60 \/ c = 62 \/ c = 34 \/ c = 39 \/ c = 47 ->
  detailGET env id sourceCode [] = (resp, l') ->
  ~ List.In (GetDetail site i) l'.
Proof.
  intros K C E I.
  destruct (@detail_call_inv env id sourceCode resp l' site i E I) as [_ [_ [S _]]].
  rewrite S in K. apply sanitize_no_delimiter in K. lia.
Qed.

(** X12: the detail handler answers every request and lets no error
    escape.  A detail is returned only after the sites, the detail and
    the cache time were obtained, in this order, with the cache time in the
    [Cache-Control] header; a 400 comes before any site is asked for a
    detail; a 500 carries, word for word, the message of the call that
    failed. *)
Theorem detail_answers (env : Env) (id sourceCode : option jsstring) (l : list call) :
  exists resp l',
    detailGET env id sourceCode l = (inl resp, l') /\
    match resp with
    | DetailJson _ result cacheControl =>
        exists site t,
          l' = l ++ [GetSites Site; GetDetail site (text id); GetCacheTime Site] /\
          detailOf env site (text id) = inl result /\
          cacheTime env = inl t /\
          cacheControl = lit "public, max-age=" ++ show_int t
    | ErrorJson _ _ status message =>
        (status = 400 /\ (l' = l \/ l' = l ++ [GetSites Site])) \/
        (status = 500 /\
         exists m, message = Some m /\
           (apiSites env = inr m \/
            (exists site, detailOf env site (text id) = inr m) \/
            cacheTime env = inr m))
    | ResultsJson _ _ _ => False
    end.
Proof.
  rewrite detailGET_cases.
  destruct (negb (truthy id) || negb (truthy sourceCode));
    [eexists _, _; split; [reflexivity|]; left; auto|].
  destruct (len (text id) >? 200);
    [eexists _, _; split; [reflexivity|]; left; auto|].
  destruct (apiSites env) as [sites | m] eqn:A;
    [|eexists _, _; split; [reflexivity|]; right; split; [reflexivity|];
      exists m; auto].
  destruct (find _ sites) as [s|];
    [|eexists _, _; split; [reflexivity|]; left; auto].
  destruct (detailOf env s (text id)) as [r | m] eqn:D;
    [|eexists _, _; split; [reflexivity|]; right; split; [reflexivity|];
      exists m; split; [reflexivity|]; right; left; now exists s].
  destruct (cacheTime env) as [t | m] eqn:T.
  - eexists _, _. split; [reflexivity|]. exists s, t.
    split; [now rewrite <- !app_assoc|]. auto.
  - eexists _, _. split; [reflexivity|]. right. split; [reflexivity|].
    exists m. auto.
Qed.

(** The outcomes of the search handler. *)
Lemma searchGET_cases (env : Env) (query : option jsstring) (l : list call) :
  searchGET env query l =
  if negb (truthy query)
  then match cacheTime env with
       | inl t => (inl (ResultsJson Detail [] (cacheControlOf t)), l ++ [GetCacheTime Site])
       | inr m => (inr m, l ++ [GetCacheTime Site])
       end
  else if negb (valid (validateSearchQuery (text query)))
  then (inl (ErrorJson Detail Item 400 (error (validateSearchQuery (text query)))), l)
  else
    match apiSites env with
    | inr m => (inr m, l ++ [GetSites Site])
    | inl sites =>
        let asked := (l ++ [GetSites Site]) ++
                     map (fun site => Search site (text query)) sites in
        match all (map (fun site => resultsOf env site (text query)) sites) with
        | inr _ => (inl (ErrorJson Detail Item 500 (Some searchFailed)), asked)
        | inl results =>
            match cacheTime env with
            | inl t =>
                (inl (ResultsJson Detail (List.concat results) (cacheControlOf t)),
                 asked ++ [GetCacheTime Site])
            | inr _ =>
                (inl (ErrorJson Detail Item 500 (Some searchFailed)),
                 asked ++ [GetCacheTime Site])
            end
        end
    end.
Proof.
  unfold Catalog.searchGET.
  destruct (negb (truthy query)).
  - unfold bind, getCacheTime, request, ret.
    destruct (cacheTime env); reflexivity.
  - destruct (negb (valid (validateSearchQuery (text query)))); [reflexivity|].
    unfold try_catch, bind, getAvailableApiSites, getCacheTime, searchAll,
      request, ret.
    destruct (apiSites env) as [sites | m]; [|reflexivity].
    cbv zeta.
    destruct (all (map (fun site => resultsOf env site (text query)) sites));
      [|reflexivity].
    destruct (cacheTime env); reflexivity.
Qed.

Lemma all_answers {A} (answers : list (A + jsstring)) (found : list A) :
  Forall2 (fun a x => a = inl x) answers found -> all answers = inl found.
Proof.
  induction 1 as [|a x answers found -> _ IH]; [reflexivity|].
  cbn [all]. now rewrite IH.
Qed.

Lemma all_failure {A} (answers : list (A + jsstring)) (m : jsstring) :
  List.In (inr m) answers -> exists m', all answers = inr m'.
Proof.
  induction answers as [|a answers IH]; intros I; [destruct I|].
  cbn [all]. destruct I as [-> | I]; [eauto|].
  destruct (IH I) as [m' ->]. destruct a; eauto.
Qed.

(** X13: a query in which [<script], [javascript:], [data:] or
    [vbscript:] occurs in any case, or an event-handler attribute, is
    refused with status 400 before the configuration or any site is
    asked. *)
Theorem search_refuses_markup (env : Env) (q : jsstring) (l : list call) :
  occurs_ci (lit "<script") q \/ occurs_ci (lit "javascript:") q \/
  occurs_ci (lit "data:") q \/ occurs_ci (lit "vbscript:") q \/
  handler_occurs q ->
  exists e,
    (e = queryLength \/ e = queryChars) /\
    searchGET env (Some q) l = (inl (ErrorJson Detail Item 400 (Some e)), l).
Proof.
  intros D. apply dangerousChars_occurrence in D.
  rewrite searchGET_cases. cbn [text].
  destruct q as [|c q]; [discriminate D|]. cbn [truthy negb].
  unfold validateSearchQuery. cbn [falsy]. rewrite D.
  destruct (len (c :: q) >? 100); cbn [valid negb error]; eauto.
Qed.

(** X14: when every site answers, the search handler asks the
    configuration, then each site once in the configured order, then the
    cache time, and returns the results of the sites one after the other
    in that order. *)
Theorem search_gathers_in_order (env : Env) (q : jsstring) (l : list call)
  (sites : list Site) (found : list (list Item)) (t : Z) :
  q <> [] ->
  valid (validateSearchQuery q) = true ->
  apiSites env = inl sites ->
  Forall2 (fun site r => resultsOf env site q = inl r) sites found ->
  cacheTime env = inl t ->
  searchGET env (Some q) l =
  (inl (ResultsJson Detail (List.concat found) (lit "public, max-age=" ++ show_int t)),
   l ++ GetSites Site :: map (fun site => Search site q) sites ++ [GetCacheTime Site]).
Proof.
  intros N V A F T. rewrite searchGET_cases. cbn [text].
  destruct q as [|c q]; [contradiction|]. cbn [truthy negb].
  rewrite V, A. cbn [negb]. cbv zeta.
  assert (G : all (map (fun site => resultsOf env site (c :: q)) sites) = inl found).
  { apply all_answers. clear -F. induction F; constructor; auto. }
  rewrite G, T. unfold cacheControlOf. f_equal.
  rewrite <- !app_assoc. reflexivity.
Qed.

(** X15: when one site fails, the answer is the fixed 500 error: the
    results of the other sites are dropped and the message of the failure
    is not passed on; every site has been asked all the same, and the
    cache time has not. *)
Theorem search_fails_as_a_whole (env : Env) (q : jsstring) (l : list call)
  (sites : list Site) (site : Site) (m : jsstring) :
  q <> [] ->
  valid (validateSearchQuery q) = true ->
  apiSites env = inl sites ->
  List.In site sites ->
  resultsOf env site q = inr m ->
  searchGET env (Some q) l =
  (inl (ErrorJson Detail Item 500 (Some searchFailed)),
   l ++ GetSites Site :: map (fun s => Search s q) sites).
Proof.
  intros N V A I R. rewrite searchGET_cases. cbn [text].
  destruct q as [|c q]; [contradiction|]. cbn [truthy negb].
  rewrite V, A. cbn [negb]. cbv zeta.
  destruct (@all_failure _ (map (fun s => resultsOf env s (c :: q)) sites) m)
    as [m' ->].
  - rewrite <- R. now apply (in_map (fun s => resultsOf env s (c :: q))).
  - now rewrite <- app_assoc.
Qed.

(** X16: the search handler lets an error escape in two cases only: the
    cache time cannot be read for an absent or empty query, or the
    configuration cannot be read for an accepted one; the error is then
    the one of that call. *)
Theorem search_throws_only_outside_try (env : Env) (query : option jsstring)
  (l l' : list call) (m : jsstring) :
  searchGET env query l = (inr m, l') <->
  (truthy query = false /\ cacheTime env = inr m /\ l' = l ++ [GetCacheTime Site]) \/
  (truthy query = true /\ valid (validateSearchQuery (text query)) = true /\
   apiSites env = inr m /\ l' = l ++ [GetSites Site]).
Proof.
  rewrite searchGET_cases.
  destruct (truthy query); cbn [negb].
  - destruct (valid (validateSearchQuery (text query))); cbn [negb].
    + destruct (apiSites env) as [sites | m0].
      * cbv zeta.
        destruct (all _); [destruct (cacheTime env)|];
          (split; [discriminate | intros [[F _] | [_ [_ [F _]]]]; discriminate F]).
      * split.
        -- intros E. injection E as -> <-. right. auto.
        -- intros [[F _] | [_ [_ [E ->]]]]; [discriminate F|]. congruence.
    + split; [discriminate | intros [[F _] | [_ [F _]]]; discriminate F].
  - destruct (cacheTime env) as [t | m0].
    + split; [discriminate | intros [[_ [F _]] | [F _]]; discriminate F].
    + split.
      * intros E. injection E as -> <-. left. auto.
      * intros [[_ [E ->]] | [F _]]; [congruence | discriminate F].
Qed.

End Handlers.

Lemma detail_asks_matching_site_witness :
  Some (lit "42") = Some (lit "42") /\ 1 <= len (lit "42") <= 200 /\
  (exists src, Some (lit "douban") = Some src /\ src <> []) /\
  lit "douban" = sanitizeString (text (Some (lit "douban"))) 50 /\
  exists before after,
    apiSites CatalogScenario.twoSites = inl (before ++ lit "douban" :: after) /\
    forall s, List.In s before -> s <> sanitizeString (text (Some (lit "douban"))) 50.
Proof.
  apply (@detail_asks_matching_site jsstring (fun site => site) jsstring jsstring
           CatalogScenario.twoSites (Some (lit "42")) (Some (lit "douban"))
           (fst (detailGET (fun site => site) CatalogScenario.twoSites
                   (Some (lit "42")) (Some (lit "douban")) []))
           (snd (detailGET (fun site => site) CatalogScenario.twoSites
                   (Some (lit "42")) (Some (lit "douban")) []))).
  - apply surjective_pairing.
  - vm_compute. tauto.
Defined.

Lemma detail_never_asks_unescaped_key_witness :
  ~ List.In (GetDetail (lit "a/b") (lit "42"))
      (snd (detailGET (fun site => site) CatalogScenario.twoSites
              (Some (lit "42")) (Some (lit "a/b")) [])).
Proof.
  apply (@detail_never_asks_unescaped_key jsstring (fun site => site) jsstring jsstring
           CatalogScenario.twoSites (Some (lit "42")) (Some (lit "a/b"))
           (fst (detailGET (fun site => site) CatalogScenario.twoSites
                   (Some (lit "42")) (Some (lit "a/b")) []))
           _ (lit "a/b") (lit "42") 47).
  - vm_compute. tauto.
  - tauto.
  - apply surjective_pairing.
Defined.

Lemma search_refuses_markup_witness :
  exists e,
    (e = queryLength \/ e = queryChars) /\
    searchGET CatalogScenario.twoSites (Some (lit "x <SCRIPT>")) [] =
    (inl (ErrorJson jsstring jsstring 400 (Some e)), []).
Proof.
  apply (@search_refuses_markup jsstring jsstring jsstring
           CatalogScenario.twoSites (lit "x <SCRIPT>") []).
  left. exists (lit "x "), (lit "<SCRIPT"), (lit ">"). split; reflexivity.
Defined.

Lemma search_gathers_in_order_witness :
  searchGET CatalogScenario.twoSites (Some (lit "moon")) [] =
  (inl (ResultsJson jsstring
          (List.concat [[lit "a/b?moon"]; [lit "douban?moon"]])
          (lit "public, max-age=" ++ show_int 7200)),
   [] ++ GetSites jsstring ::
     map (fun site => Search site (lit "moon")) [lit "a/b"; lit "douban"] ++
     [GetCacheTime jsstring]).
Proof.
  apply (@search_gathers_in_order jsstring jsstring jsstring
           CatalogScenario.twoSites (lit "moon") []).
  - discriminate.
  - reflexivity.
  - reflexivity.
  - repeat constructor.
  - reflexivity.
Defined.

Lemma search_fails_as_a_whole_witness :
  searchGET CatalogScenario.secondFails (Some (lit "moon")) [] =
  (inl (ErrorJson jsstring jsstring 500 (Some searchFailed)),
   [] ++ GetSites jsstring ::
     map (fun s => Search s (lit "moon")) [lit "a/b"; lit "douban"]).
Proof.
  apply (@search_fails_as_a_whole jsstring jsstring jsstring
           CatalogScenario.secondFails (lit "moon") []
           [lit "a/b"; lit "douban"] (lit "douban") (lit "fetch failed")).
  - discriminate.
  - reflexivity.
  - reflexivity.
  - simpl. tauto.
  - reflexivity.
Defined.

Lemma search_throws_only_outside_try_witness :
  searchGET CatalogScenario.noConfig (Some (lit "moon")) [] =
  (inr (lit "config unavailable"), [] ++ [GetSites jsstring]).
Proof.
  apply (proj2 (@search_throws_only_outside_try jsstring jsstring jsstring
                  CatalogScenario.noConfig (Some (lit "moon")) [] _ _)).
  right. repeat split.
Defined.

End CatalogFacts.

(* ================================================================== *)
(** ** The download handler as a whole *)

Module DownloadFacts.

Import Runner Sys Route Race Scenario RunnerFacts RouteFacts.

Lemma process_resolution_path (out : jsstring) (p : list (N * pevent)) :
  forall elapsed err t v,
    process_resolution out elapsed err p = Some (t, Fulfilled v) -> v = out.
Proof.
  induction p as [|[d e] p IH]; intros elapsed err t v; simpl; [discriminate|].
  destruct e as [chunk | [[|q|q]|] | m]; intros H;
    try discriminate H; try (injection H as _ <-; reflexivity).
  now apply IH in H.
Qed.

(** The three ways [convertHLSToMP4] comes back. *)
Lemma convert_cases (env : Env) (url fn : jsstring) (w : World) :
  let p := tempPath env fn in
  let spawn := Spawn (lit "ffmpeg") (ffmpegArgs url p) in
  let fs := ffmpeg_effect env p (files w) in
  (deadline_first p 0 [] (proc env) = true /\
   convertHLSToMP4 env url fn w =
     Some (inr timeoutMessage,
           mkWorld fs (calls w ++ [spawn; Kill (lit "SIGKILL")]))) \/
  (deadline_first p 0 [] (proc env) = false /\
   ((exists t, process_resolution p 0 [] (proc env) = Some (t, Fulfilled p) /\
      convertHLSToMP4 env url fn w = Some (inl p, mkWorld fs (calls w ++ [spawn]))) \/
    (exists t m, process_resolution p 0 [] (proc env) = Some (t, Rejected m) /\
      convertHLSToMP4 env url fn w = Some (inr m, mkWorld fs (calls w ++ [spawn]))))).
Proof.
  cbv zeta.
  destruct (convert_outcome env url fn w) as [st [late [A [_ ->]]]].
  destruct (@await_schedule (tempPath env fn) (proc env) 0 init eq_refl)
    as [st' [late' [A' [_ [_ R]]]]].
  unfold schedule in A. rewrite A in A'. injection A' as <- <-.
  cbn [stderr kills init] in R.
  destruct (deadline_first (tempPath env fn) 0 [] (proc env)).
  - left. destruct R as [-> ->]. split; [reflexivity|].
    cbn [map]. now rewrite <- app_assoc.
  - right. split; [reflexivity|]. destruct R as [S ->].
    cbn [map]. rewrite app_nil_r.
    destruct (process_resolution (tempPath env fn) 0 [] (proc env))
      as [[t r]|] eqn:P; [|discriminate S].
    cbn [option_map snd] in S. injection S as ->.
    destruct r as [|v|m].
    + exfalso. clear -P. revert P. generalize 0 at 1. generalize (@nil Z).
      induction (proc env) as [|[d e] q IH]; intros err el P; [discriminate P|].
      simpl in P. destruct e as [chunk | [[|x|x]|] | m]; try discriminate P.
      now apply IH in P.
    + pose proof (process_resolution_path _ _ _ _ P) as ->.
      left. now exists t.
    + right. now exists t, m.
Qed.









(** X18: when the deadline elapses first, the handler has spawned ffmpeg
    and killed it, reads nothing, answers with the advisory, and leaves on
    disk whatever ffmpeg had written. *)
Theorem POST_on_deadline (env : Env) (url : jsstring) (hint : option jsstring)
  (w : World) :
  let fn := deriveFileName hint in
  let p := tempPath env fn in
  isSegmentedStream url = true ->
  deadline_first p 0 [] (proc env) = true ->
  POST env (Json (Some url) hint) w =
    Some (inl (ConversionFailed conversionFailed suggestionText
                 (fallbackAdvisory url fn) url fn),
          mkWorld (ffmpeg_effect env p (files w))
                  (calls w ++ [Spawn (lit "ffmpeg") (ffmpegArgs url p);
                               Kill (lit "SIGKILL")])).
Proof.
  intros fn p H D.
  rewrite (@POST_hls env _ hint w H). cbv zeta. fold fn. fold p.
  destruct (convert_cases env url fn w) as [[_ C] | [D' _]].
  - fold p in C. now rewrite C.
  - fold p in D'. congruence.
Qed.


Lemma POST_on_deadline_witness :
  exists fs,
    POST (mkEnv (lit "/tmp") (lit "123e4567-e89b-42d3-a456-426614174000")
                [(700000%N, Close (Some 0))] None None None)
         (Json (Some clipUrl) (Some (lit "clip"))) (mkWorld [] []) =
    Some (inl (ConversionFailed conversionFailed suggestionText
                 (fallbackAdvisory clipUrl (lit "clip.mp4")) clipUrl (lit "clip.mp4")),
          mkWorld fs ([] ++ [Spawn (lit "ffmpeg") (ffmpegArgs clipUrl clipPath);
                             Kill (lit "SIGKILL")])).
Proof.
  eexists.
  apply (@POST_on_deadline
           (mkEnv (lit "/tmp") (lit "123e4567-e89b-42d3-a456-426614174000")
                  [(700000%N, Close (Some 0))] None None None)
           clipUrl (Some (lit "clip")) (mkWorld [] [])); reflexivity.
Defined.

(** X19: the handler answers every request; no request leaves the caller
    waiting and no error escapes it.  Its system calls are nothing at all
    (bad request, direct link, unreadable body), or spawn, read, unlink
    when it streams the file, or, when it reports a failed conversion,
    spawn alone, spawn and kill, spawn and read, or spawn, read and unlink
    (the response could not be built); and a failed conversion is always
    answered with the same fixed texts and the advisory of the request,
    whatever the failure was. *)
Theorem POST_protocol (env : Env) (request : Request) (w : World) :
  exists resp w',
    POST env request w = Some (inl resp, w') /\
    match resp with
    | FileStream _ _ =>
        exists url hint,
          request = Json (Some url) hint /\
          let p := tempPath env (deriveFileName hint) in
          calls w' = calls w ++ [Spawn (lit "ffmpeg") (ffmpegArgs url p);
                                 ReadFile p; Unlink p]
    | ConversionFailed _ _ _ _ _ =>
        exists url hint,
          request = Json (Some url) hint /\
          let fn := deriveFileName hint in
          let p := tempPath env fn in
          let spawn := Spawn (lit "ffmpeg") (ffmpegArgs url p) in
          resp = ConversionFailed conversionFailed suggestionText
                   (fallbackAdvisory url fn) url fn /\
          (calls w' = calls w ++ [spawn] \/
           calls w' = calls w ++ [spawn; Kill (lit "SIGKILL")] \/
           calls w' = calls w ++ [spawn; ReadFile p] \/
           calls w' = calls w ++ [spawn; ReadFile p; Unlink p])
    | _ => w' = w
    end.
Proof.
  destruct request as [m | [[|c u]|] hint];
    try (eexists _, _; split; [reflexivity|]; reflexivity).
  destruct (isSegmentedStream (c :: u)) eqn:H.
  - rewrite (@POST_hls env _ hint w H). cbv zeta.
    destruct (convert_cases env (c :: u) (deriveFileName hint) w)
      as [[_ C] | [_ [[t [_ C]] | [t [m [_ C]]]]]]; cbv zeta in C; rewrite C.
    + eexists _, _. split; [reflexivity|]. exists (c :: u), hint.
      split; [reflexivity|]. cbv zeta. split; [reflexivity|]. cbn [calls]. auto.
    + match goal with
      | |- context [readFile env ?q ?v] =>
          destruct (readFile_returns env q v) as [[buf | m] ->]
      end.
      * match goal with
        | |- context [catch_ignore (unlink env ?q) ?v] =>
            destruct (unlink_swallowed env q v) as [fs ->]
        end.
        destruct (headers_ok (streamHeaders (deriveFileName hint) buf)).
        -- eexists _, _. split; [reflexivity|]. exists (c :: u), hint.
           split; [reflexivity|]. cbv zeta. cbn [calls].
           now rewrite <- !app_assoc.
        -- eexists _, _. split; [reflexivity|]. exists (c :: u), hint.
           split; [reflexivity|]. cbv zeta. split; [reflexivity|]. cbn [calls].
           right; right; right. now rewrite <- !app_assoc.
      * eexists _, _. split; [reflexivity|]. exists (c :: u), hint.
        split; [reflexivity|]. cbv zeta. split; [reflexivity|]. cbn [calls].
        right; right; left. now rewrite <- !app_assoc.
    + eexists _, _. split; [reflexivity|]. exists (c :: u), hint.
      split; [reflexivity|]. cbv zeta. split; [reflexivity|]. cbn [calls]. auto.
  - rewrite POST_direct; [|discriminate|exact H].
    eexists _, _. split; reflexivity.
Qed.

Lemma app_same_length (a b x y : jsstring) :
  List.length a = List.length b -> a ++ x = b ++ y -> a = b.
Proof.
  revert b. induction a as [|c a IH]; intros [|d b] L E; try discriminate L.
  - reflexivity.
  - injection L as L. injection E as -> E. f_equal. now apply IH.
Qed.

(** X20: two requests served from the same absolute scratch directory
    with different tokens of the same length get different temporary
    paths, whatever their file-name hints. *)
Theorem temp_paths_distinct (env1 env2 : Env) (hint1 hint2 : option jsstring) :
  tmpdir env1 = tmpdir env2 ->
  starts_with [47] (tmpdir env1) = true ->
  ~ List.In 47 (uuid env1) -> ~ List.In 47 (uuid env2) ->
  List.length (uuid env1) = List.length (uuid env2) ->
  uuid env1 <> uuid env2 ->
  tempPath env1 (deriveFileName hint1) <> tempPath env2 (deriveFileName hint2).
Proof.
  intros D A U1 U2 L N E.
  assert (F : forall h, ~ List.In 47 (deriveFileName h)).
  { intros h I. apply FileNaming.deriveFileName_no_delimiter in I. lia. }
  unfold tempPath in E.
  rewrite (@PathFacts.join_plain (tmpdir env1) _ A
             (@NameFacts.token_name_plain (uuid env1) (deriveFileName hint1)
                U1 (F hint1))) in E.
  rewrite <- D in E.
  rewrite (@PathFacts.join_plain (tmpdir env1) _ A
             (@NameFacts.token_name_plain (uuid env2) (deriveFileName hint2)
                U2 (F hint2))) in E.
  apply app_inv_head in E. apply N.
  exact (@app_same_length (uuid env1) (uuid env2) _ _ L E).
Qed.

Lemma temp_paths_distinct_witness :
  tempPath (mkEnv (lit "/tmp") (lit "aaaa") [] None None None)
           (deriveFileName (Some (lit "clip"))) <>
  tempPath (mkEnv (lit "/tmp") (lit "aaab") [] None None None)
           (deriveFileName (Some (lit "clip"))).
Proof.
  apply (@temp_paths_distinct
           (mkEnv (lit "/tmp") (lit "aaaa") [] None None None)
           (mkEnv (lit "/tmp") (lit "aaab") [] None None None)
           (Some (lit "clip")) (Some (lit "clip")));
    try reflexivity; vm_compute; intuition discriminate.
Defined.

(** X21: the derived name holds exactly one dot, the one of the appended
    extension: every dot of the hint is stripped, and a hint that already
    ends in [.mp4] comes back ending in [mp4.mp4]. *)
Theorem deriveFileName_single_dot (hint : option jsstring) (s : jsstring) :
  count_occ Z.eq_dec (deriveFileName hint) 46 = 1%nat /\
  deriveFileName (Some (s ++ lit ".mp4")) = strip s ++ lit "mp4.mp4".
Proof.
  split.
  - unfold deriveFileName. rewrite count_occ_app.
    replace (count_occ Z.eq_dec (strip (orDefault hint)) 46) with 0%nat;
      [reflexivity|].
    symmetry. apply count_occ_not_In. intros I. apply strip_In in I.
    destruct I as [_ K]. discriminate K.
  - unfold deriveFileName.
    assert (O : orDefault (Some (s ++ lit ".mp4")) = s ++ lit ".mp4")
      by (destruct s; reflexivity).
    rewrite O. unfold strip. rewrite filter_app, <- app_assoc. reflexivity.
Qed.

End DownloadFacts.
